(** * An explicit mass-spring system: the Taichi kernels of
    [mess_spring_explicit.py], embedded and verified.

    The program keeps its whole state in Taichi fields (dense arrays of a
    fixed shape, zero-initialised) and changes it through three kernels,
    [substep], [add_particle] and [attract], and through the key handlers of
    [main].  The embedding below threads a [state] record through these
    operations; every field of the program is a component of the record.

    Scalars.  The fields hold [ti.f32] values.  The kernels are written over
    an interface [Scalar] of the operations they use, so that every
    structural result holds for whatever the arithmetic does; the instance
    [binary32] interprets the interface by IEEE-754 single precision
    ([SpecFloat] with 24 bits of precision and [emax = 128]) and is the one
    the concrete runs of the kernels are made with.

    Capacity.  No kernel checks an index against the shape of a field.  The
    embedding follows the program as long as every index lies within the
    fields, that is, as long as the particle count is at most
    [max_num_particles] when a kernel reads and below it when a particle is
    added; the theorems about the kernels assume that condition. *)

From Stdlib Require Import ZArith QArith Lia.
From Stdlib Require Import Floats.SpecFloat.
From stdpp Require Import base tactics option list.

(** ** Scalars *)

(** The operations on [ti.f32] the kernels use.  A number of the Python
    scope ([dt], [particle_mass], a literal) is a rational here; arithmetic
    between two of them ([-dt], [-dt * substeps]) is Python's, done before
    the kernel is compiled, and [lit q] is the [f32] constant the compiler
    emits where such a number [q] meets a Taichi expression.

    [main] also computes with field values outside every kernel
    ([spring_Y[None] /= 1.1]): the load hands Python a [float], Python
    multiplies or divides it by its own literal, and the store takes the
    result back to [f32].  [py_mul a q] and [py_div a q] are the value
    stored for [a * q] and [a / q]. *)
Class Scalar (F : Type) := {
  lit : Q -> F;
  fadd : F -> F -> F;
  fsub : F -> F -> F;
  fmul : F -> F -> F;
  fdiv : F -> F -> F;
  fneg : F -> F;
  fsqrt : F -> F;
  fexp : F -> F;
  fltb : F -> F -> bool;
  feqb : F -> F -> bool;
  py_mul : F -> Q -> F;
  py_div : F -> Q -> F
}.

Declare Scope scalar_scope.
Delimit Scope scalar_scope with F.
Infix "+" := fadd : scalar_scope.
Infix "-" := fsub : scalar_scope.
Infix "*" := fmul : scalar_scope.
Infix "/" := fdiv : scalar_scope.
Notation "- a" := (fneg a) : scalar_scope.

(** *** IEEE-754 double precision: the [float] of Python *)

Module F64.

Definition prec : Z := 53%Z.
Definition emax : Z := 1024%Z.

Definition of_Z (z : Z) : spec_float := binary_normalize prec emax z 0%Z false.

(** A decimal literal of the Python source, rounded to nearest. *)
Definition of_Q (q : Q) : spec_float :=
  SFdiv prec emax (of_Z (Qnum q)) (of_Z (Zpos (Qden q))).

Definition add := SFadd prec emax.
Definition mul := SFmul prec emax.
Definition div := SFdiv prec emax.

(** The exponential series [1 + a + a^2/2 + ...] of a number that is not
    negative, summed until a term no longer changes the sum: [term] is
    [a^n / n!] and [sum] the sum of the terms before it. *)
Fixpoint series (fuel : nat) (a term sum : spec_float) (n : Z) : spec_float :=
  match fuel with
  | O => sum
  | S fuel =>
      let sum' := add sum term in
      if SFeqb sum' sum then sum
      else series fuel a (div (mul term a) (of_Z (n + 1))) sum' (n + 1)
  end.

Definition exp (a : spec_float) : spec_float :=
  match a with
  | S754_infinity true => S754_zero false
  | S754_finite true m e =>
      div (of_Z 1) (series 400 (S754_finite false m e) (S754_finite false m e) (of_Z 1) 1)
  | _ => series 400 a a (of_Z 1) 1
  end.

End F64.

(** *** IEEE-754 single precision *)

Module F32.

Definition prec : Z := 24%Z.
Definition emax : Z := 128%Z.

Definition of_Z (z : Z) : spec_float := binary_normalize prec emax z 0%Z false.

(** A decimal literal, rounded to nearest: numerator and denominator of
    every constant of the program fit the significand, so the quotient of
    the two is the correctly rounded value. *)
Definition of_Q (q : Q) : spec_float :=
  SFdiv prec emax (of_Z (Qnum q)) (of_Z (Zpos (Qden q))).

Definition add := SFadd prec emax.
Definition sub := SFsub prec emax.
Definition mul := SFmul prec emax.
Definition div := SFdiv prec emax.
Definition sqrt := SFsqrt prec emax.

(** The cast of a double to [f32], rounding to nearest: what a store of a
    Python [float] into a field does.  A single-precision number is a
    double as it stands, so the load needs no conversion. *)
Definition round (a : spec_float) : spec_float :=
  match a with
  | S754_finite s m e => binary_normalize prec emax (cond_Zopp s (Zpos m)) e s
  | _ => a
  end.

(** [ti.exp] is the C library's [expf], which is no part of the program:
    every general result below holds for whatever [fexp] is.  The concrete
    runs take the exponential series summed in double precision and rounded
    to single, a stand-in for the library's function and not a model of
    it. *)
Definition exp (a : spec_float) : spec_float := round (F64.exp a).

(** Python's [a * q] and [a / q] on a field value [a], stored back. *)
Definition py_mul (a : spec_float) (q : Q) : spec_float :=
  round (F64.mul a (F64.of_Q q)).
Definition py_div (a : spec_float) (q : Q) : spec_float :=
  round (F64.div a (F64.of_Q q)).

Definition is_nan (a : spec_float) : bool :=
  match a with S754_nan => true | _ => false end.

Definition is_zero (a : spec_float) : bool :=
  match a with S754_zero _ => true | _ => false end.

End F32.

#[export] Instance binary32 : Scalar spec_float := {
  lit := F32.of_Q;
  fadd := F32.add;
  fsub := F32.sub;
  fmul := F32.mul;
  fdiv := F32.div;
  fneg := SFopp;
  fsqrt := F32.sqrt;
  fexp := F32.exp;
  fltb := SFltb;
  feqb := SFeqb;
  py_mul := F32.py_mul;
  py_div := F32.py_div
}.

(** ** Python-level constants of the module *)

Definition max_num_particles : nat := 1024.
Definition particle_mass : Q := 1.
Definition dt : Q := 1 # 1000.
Definition substeps : nat := 10.

(** [ti.i32]: two's-complement wrap-around on 32 bits. *)
Definition wrap32 (z : Z) : Z := ((z + 2 ^ 31) mod 2 ^ 32 - 2 ^ 31)%Z.

(** ** Generic loops *)

(** [for i in range(n): body], the body acting on a threaded state.  A
    negative [n] gives the empty range. *)
Definition for_range {S : Type} (n : Z) (body : nat -> S -> S) (s : S) : S :=
  foldl (fun acc i => body i acc) s (seq 0 (Z.to_nat n)).

(** ** The simulation *)

Section Simulation.

Context {F : Type} `{Scalar F}.

#[local] Instance scalar_inhabited : Inhabited F := populate (lit 0).

Local Open Scope scalar_scope.

(** *** [ti.Vector] of two entries *)

Definition vec : Type := F * F.

Definition vadd (a b : vec) : vec := (a.1 + b.1, a.2 + b.2).
Definition vsub (a b : vec) : vec := (a.1 - b.1, a.2 - b.2).
(** scalar [*] vector, vector [*] scalar, vector [/] scalar: entry-wise *)
Definition smul (c : F) (a : vec) : vec := (c * a.1, c * a.2).
Definition vmuls (a : vec) (c : F) : vec := (a.1 * c, a.2 * c).
Definition vdivs (a : vec) (c : F) : vec := (a.1 / c, a.2 / c).

Definition dot (a b : vec) : F := a.1 * b.1 + a.2 * b.2.
(** [Vector.norm()] and [Vector.normalized()] as the Taichi library
    defines them, with the default [eps = 0]: the square root of the sum
    of squares, and the vector scaled by the inverse of its norm. *)
Definition norm (a : vec) : F := fsqrt (a.1 * a.1 + a.2 * a.2).
Definition normalized (a : vec) : vec := smul (lit 1 / norm a) a.

(** entry [d] of a vector ([d = 0]: horizontal, otherwise vertical) *)
Definition vget (a : vec) (d : nat) : F :=
  match d with O => a.1 | _ => a.2 end.
Definition vset (a : vec) (d : nat) (c : F) : vec :=
  match d with O => (c, a.2) | _ => (a.1, c) end.

(** *** The fields *)

Record state : Type := State {
  x : list vec;
  v : list vec;
  f : list vec;
  fixed : list Z;
  spring_Y : F;
  paused : Z;
  num_particles : Z;
  rest_length : list (list F);
  drag_damping : F;
  dashpot_damping : F
}.

(** The shapes the fields are declared with. *)
Definition well_shaped (s : state) : Prop :=
  length (x s) = max_num_particles /\
  length (v s) = max_num_particles /\
  length (f s) = max_num_particles /\
  length (fixed s) = max_num_particles /\
  length (rest_length s) = max_num_particles /\
  Forall (fun row => length row = max_num_particles) (rest_length s).

(** Stores.  [ix] takes an [i32] index to a position of a list, a
    negative one to a position outside every shape.  Taichi checks no
    bounds outside debug mode: an access outside a field's shape goes to
    whatever memory lies there, another field of the program or none at
    all.  The lists do not follow it there, and what the list operations
    give at such a position (the store is dropped, the load gives the
    default of the type) stands for nothing the program does: no result
    below is about an access outside the shape. *)
Definition ix (i : Z) : nat :=
  if (i <? 0)%Z then max_num_particles else Z.to_nat i.

Definition set_x (s : state) (i : nat) (a : vec) : state :=
  State (<[i := a]> (x s)) (v s) (f s) (fixed s) (spring_Y s) (paused s)
        (num_particles s) (rest_length s) (drag_damping s) (dashpot_damping s).
Definition set_v (s : state) (i : nat) (a : vec) : state :=
  State (x s) (<[i := a]> (v s)) (f s) (fixed s) (spring_Y s) (paused s)
        (num_particles s) (rest_length s) (drag_damping s) (dashpot_damping s).
Definition set_f (s : state) (i : nat) (a : vec) : state :=
  State (x s) (v s) (<[i := a]> (f s)) (fixed s) (spring_Y s) (paused s)
        (num_particles s) (rest_length s) (drag_damping s) (dashpot_damping s).
Definition set_fixed (s : state) (i : nat) (b : Z) : state :=
  State (x s) (v s) (f s) (<[i := b]> (fixed s)) (spring_Y s) (paused s)
        (num_particles s) (rest_length s) (drag_damping s) (dashpot_damping s).
Definition set_rest_length (s : state) (i j : nat) (a : F) : state :=
  State (x s) (v s) (f s) (fixed s) (spring_Y s) (paused s)
        (num_particles s) (alter (fun row => <[j := a]> row) i (rest_length s))
        (drag_damping s) (dashpot_damping s).
Definition set_num_particles (s : state) (n : Z) : state :=
  State (x s) (v s) (f s) (fixed s) (spring_Y s) (paused s)
        n (rest_length s) (drag_damping s) (dashpot_damping s).

(** [rest_length[i, j]] *)
Definition rest (s : state) (i j : nat) : F := (rest_length s !!! i) !!! j.

(** *** [substep] *)

(** The body of the inner loop of the force computation: the spring
    between [i] and [j], if there is one, adds to [f[i]]. *)
Definition spring_force (i j : nat) (s : state) : state :=
  if negb (feqb (rest s i j) (lit 0)) then
    let x_ij := vsub (x s !!! i) (x s !!! j) in
    let d := normalized x_ij in
    (* Spring force *)
    let s := set_f s i (vadd (f s !!! i)
               (smul ((- spring_Y s) * (norm x_ij / rest s i j - lit 1)) d)) in
    (* Dashpot damping *)
    let v_rel := dot (vsub (v s !!! i) (v s !!! j)) d in
    set_f s i (vadd (f s !!! i) (smul ((- dashpot_damping s) * v_rel) d))
  else s.

Definition compute_force (n : Z) (i : nat) (s : state) : state :=
  (* Gravity *)
  let s := set_f s i (vmuls (lit 0, lit (-98 # 10)) (lit particle_mass)) in
  for_range n (spring_force i) s.

(** One wall test of the collision rule on axis [d]. *)
Definition collide (d : nat) (i : nat) (s : state) : state :=
  let s :=
    if fltb (vget (x s !!! i) d) (lit 0) then (* Bottom and left *)
      let s := set_x s i (vset (x s !!! i) d (lit 0)) in
      set_v s i (vset (v s !!! i) d (lit 0))
    else s in
  if fltb (lit 1) (vget (x s !!! i) d) then (* Top and right *)
    let s := set_x s i (vset (x s !!! i) d (lit 1)) in
    set_v s i (vset (v s !!! i) d (lit 0))
  else s.

Definition integrate (i : nat) (s : state) : state :=
  let s :=
    if (fixed s !!! i =? 0)%Z then
      let s := set_v s i (vadd (v s !!! i)
                 (vdivs (smul (lit dt) (f s !!! i)) (lit particle_mass))) in
      (* Drag damping *)
      let s := set_v s i (vmuls (v s !!! i) (fexp (lit (- dt) * drag_damping s))) in
      set_x s i (vadd (x s !!! i) (vmuls (v s !!! i) (lit dt)))
    else set_v s i (lit 0, lit 0) in
  (* Collide with four walls *)
  collide 1 i (collide 0 i s).

Definition substep (s : state) : state :=
  let n := num_particles s in
  let s := for_range n (compute_force n) s in
  for_range n integrate s.

(** *** [add_particle] *)

Definition connect (new_particle_id : nat) (i : nat) (s : state) : state :=
  if fltb (norm (vsub (x s !!! new_particle_id) (x s !!! i))) (lit (15 # 100)) then
    let s := set_rest_length s new_particle_id i (lit (1 # 10)) in
    set_rest_length s i new_particle_id (lit (1 # 10))
  else s.

Definition add_particle (pos_x pos_y : F) (fixed_ : Z) (s : state) : state :=
  let new_particle_id := ix (num_particles s) in
  let s := set_v s new_particle_id (lit 0, lit 0) in
  let s := set_x s new_particle_id (pos_x, pos_y) in
  let s := set_fixed s new_particle_id fixed_ in
  let s := for_range (num_particles s) (connect new_particle_id) s in
  set_num_particles s (wrap32 (num_particles s + 1)%Z).

(** *** [attract] *)

(** [v[i] += -dt * substeps * (x[i] - p) * 100], read from the left:
    the constant [-dt * substeps], times the vector, times 100. *)
Definition attract_one (pos_x pos_y : F) (i : nat) (s : state) : state :=
  let p := (pos_x, pos_y) in
  set_v s i (vadd (v s !!! i)
    (vmuls (smul (lit (- dt * inject_Z (Z.of_nat substeps))) (vsub (x s !!! i) p))
           (lit 100))).

Definition attract (pos_x pos_y : F) (s : state) : state :=
  for_range (num_particles s) (attract_one pos_x pos_y) s.

(** *** The handlers of [main] *)

(** key [c]: [num_particles[None] = 0; rest_length.fill(0)] *)
Definition clear_scene (s : state) : state :=
  State (x s) (v s) (f s) (fixed s) (spring_Y s) (paused s)
        0%Z ((fun row : list F => (fun _ : F => lit 0) <$> row) <$> rest_length s)
        (drag_damping s) (dashpot_damping s).

(** key [Space]: [paused[None] = not paused[None]] *)
Definition toggle_paused (s : state) : state :=
  State (x s) (v s) (f s) (fixed s) (spring_Y s)
        (if (paused s =? 0)%Z then 1%Z else 0%Z)
        (num_particles s) (rest_length s) (drag_damping s) (dashpot_damping s).

(** keys [y], [d], [x]: [spring_Y[None] /= 1.1] with [Shift] held and
    [spring_Y[None] *= 1.1] without, a computation of Python's on the
    value it reads from the field. *)
Definition scale (shift : bool) (a : F) : F :=
  if shift then py_div a (11 # 10) else py_mul a (11 # 10).
Definition scale_spring_Y (shift : bool) (s : state) : state :=
  State (x s) (v s) (f s) (fixed s) (scale shift (spring_Y s)) (paused s)
        (num_particles s) (rest_length s) (drag_damping s) (dashpot_damping s).
Definition scale_drag_damping (shift : bool) (s : state) : state :=
  State (x s) (v s) (f s) (fixed s) (spring_Y s) (paused s)
        (num_particles s) (rest_length s) (scale shift (drag_damping s))
        (dashpot_damping s).
Definition scale_dashpot_damping (shift : bool) (s : state) : state :=
  State (x s) (v s) (f s) (fixed s) (spring_Y s) (paused s)
        (num_particles s) (rest_length s) (drag_damping s)
        (scale shift (dashpot_damping s)).

(** [if not paused[None]: for step in range(substeps): substep()] *)
Definition run_substeps (s : state) : state :=
  if (paused s =? 0)%Z then Nat.iter substeps substep s else s.

(** The fields as [main] finds them, zero-initialised, after its three
    assignments to the parameters. *)
Definition init_state : state :=
  State (replicate max_num_particles (lit 0, lit 0))
        (replicate max_num_particles (lit 0, lit 0))
        (replicate max_num_particles (lit 0, lit 0))
        (replicate max_num_particles 0%Z)
        (lit 1000) 0%Z 0%Z
        (replicate max_num_particles (replicate max_num_particles (lit 0)))
        (lit 1) (lit 100).

(** *** What one particle undergoes, as the specification words it *)

(** Gravity, [(0, -9.8)] times the particle mass. *)
Definition gravity : vec := vmuls (lit 0, lit (-98 # 10)) (lit particle_mass).

(** [dir], the normalized separation of [i] from [j]. *)
Definition direction (s : state) (i j : nat) : vec :=
  normalized (vsub (x s !!! i) (x s !!! j)).

(** The Hookean term
    [-springStiffness * (|pos[i]-pos[j]| / restLength(i,j) - 1) * dir]. *)
Definition hooke (s : state) (i j : nat) : vec :=
  smul (fmul (fneg (spring_Y s))
             (fsub (fdiv (norm (vsub (x s !!! i) (x s !!! j))) (rest s i j)) (lit 1)))
       (direction s i j).

(** The dashpot term [-dashpotDamping * dot(vel[i]-vel[j], dir) * dir]. *)
Definition dashpot (s : state) (i j : nat) : vec :=
  smul (fmul (fneg (dashpot_damping s))
             (dot (vsub (v s !!! i) (v s !!! j)) (direction s i j)))
       (direction s i j).

(** What the scan of [j] adds to the force on [i]. *)
Definition spring_terms (s : state) (i j : nat) (acc : vec) : vec :=
  if negb (feqb (rest s i j) (lit 0))
  then vadd (vadd acc (hooke s i j)) (dashpot s i j)
  else acc.

(** The net force on [i]: gravity, plus the two terms of every [j] in
    [[0, n)] that a spring joins to [i], summed in the order of the scan. *)
Definition net_force (s : state) (i : nat) : vec :=
  foldl (fun acc j => spring_terms s i j acc) gravity
        (seq 0 (Z.to_nat (num_particles s))).

(** Semi-implicit Euler on a (position, velocity) pair under a force. *)
Definition euler (drag : F) (force : vec) (pu : vec * vec) : vec * vec :=
  let v1 := vadd pu.2 (vdivs (smul (lit dt) force) (lit particle_mass)) in
  let v2 := vmuls v1 (fexp (fmul (lit (- dt)) drag)) in
  (vadd pu.1 (vmuls v2 (lit dt)), v2).

(** The integration of one particle before the walls are looked at. *)
Definition moved (fx : Z) (drag : F) (force : vec) (pu : vec * vec) : vec * vec :=
  if (fx =? 0)%Z then euler drag force pu else (pu.1, (lit 0, lit 0)).

(** The two wall tests on axis [d]. *)
Definition walls1 (d : nat) (pu : vec * vec) : vec * vec :=
  let pu := if fltb (vget pu.1 d) (lit 0)
            then (vset pu.1 d (lit 0), vset pu.2 d (lit 0)) else pu in
  if fltb (lit 1) (vget pu.1 d)
  then (vset pu.1 d (lit 1), vset pu.2 d (lit 0)) else pu.

Definition walls (pu : vec * vec) : vec * vec := walls1 1 (walls1 0 pu).

(** Position and velocity of particle [i] after its integration in a
    substep from [s], before the collision rule. *)
Definition pre_clamp (s : state) (i : nat) : vec * vec :=
  moved (fixed s !!! i) (drag_damping s) (net_force s i) (x s !!! i, v s !!! i).

(** The impulse [attract] gives particle [i], in the order the source
    multiplies. *)
Definition nudge (pos_x pos_y : F) (s : state) (i : nat) : vec :=
  vmuls (smul (lit (- dt * inject_Z (Z.of_nat substeps)))
              (vsub (x s !!! i) (pos_x, pos_y)))
        (lit 100).

(** No coordinate is beyond a wall, as the collision rule tests it. *)
Definition within_walls (p : vec) : Prop :=
  forall d : nat, fltb (vget p d) (lit 0) = false /\ fltb (lit 1) (vget p d) = false.

Definition symmetric (s : state) : Prop :=
  forall i j : nat, rest s i j = rest s j i.

Definition no_self_loop (s : state) : Prop :=
  forall i : nat, rest s i i = lit 0.

(** Position and velocity of one particle, read and stored together. *)
Definition get_xv (i : nat) (s : state) : vec * vec := (x s !!! i, v s !!! i).
Definition put_xv (i : nat) (pu : vec * vec) (s : state) : state :=
  set_v (set_x s i pu.1) i pu.2.

(** The state [t] differs from [s] in [x], [v] and [f] at most. *)
Definition same_scene (s t : state) : Prop :=
  fixed t = fixed s /\ spring_Y t = spring_Y s /\ paused t = paused s /\
  num_particles t = num_particles s /\ rest_length t = rest_length s /\
  drag_damping t = drag_damping s /\ dashpot_damping t = dashpot_damping s.

(** The spring table has as many columns in every row as it has rows. *)
Definition square (s : state) : Prop :=
  Forall (fun row => length row = length (rest_length s)) (rest_length s).

(** Several particles added one after the other. *)
Definition add_all (ps : list (F * F * Z)) (s : state) : state :=
  foldl (fun acc p => add_particle p.1.1 p.1.2 p.2 acc) s ps.

(** The states the program can be in: [main] starts from [init_state] and
    every event of its loop is one of the operations above.  A particle is
    added while there is room for one: past the capacity the stores of
    [add_particle] fall outside the fields, where nothing is defined. *)
Inductive reachable : state -> Prop :=
| reach_init : reachable init_state
| reach_add_particle pos_x pos_y fixed_ s :
    reachable s -> (num_particles s < Z.of_nat max_num_particles)%Z ->
    reachable (add_particle pos_x pos_y fixed_ s)
| reach_clear_scene s : reachable s -> reachable (clear_scene s)
| reach_substep s : reachable s -> reachable (substep s)
| reach_attract pos_x pos_y s : reachable s -> reachable (attract pos_x pos_y s)
| reach_toggle_paused s : reachable s -> reachable (toggle_paused s)
| reach_scale_spring_Y shift s : reachable s -> reachable (scale_spring_Y shift s)
| reach_scale_drag_damping shift s :
    reachable s -> reachable (scale_drag_damping shift s)
| reach_scale_dashpot_damping shift s :
    reachable s -> reachable (scale_dashpot_damping shift s).

(** The state [t] has the lengths of [s] in [x], [v] and [f]. *)
Definition same_lengths (s t : state) : Prop :=
  length (x t) = length (x s) /\ length (v t) = length (v s) /\
  length (f t) = length (f s).

(** What holds of the spring table throughout. *)
Definition table_ok (s : state) : Prop :=
  square s /\ symmetric s /\ no_self_loop s.

(** The particle count is within the capacity of the fields. *)
Definition in_capacity (s : state) : Prop :=
  (num_particles s <= Z.of_nat max_num_particles)%Z.

End Simulation.

Arguments vec F : clear implicits.
Arguments state F : clear implicits.
#[export] Existing Instance scalar_inhabited.

(** ** Concrete scenes, in single precision *)

Module Scenario.

(** The vector of two NaNs. *)
Definition nanv : vec spec_float := (S754_nan, S754_nan).

(** The scene of the specification: a pinned particle at [(0.30, 0.30)],
    a free one at [(0.30, 0.39)], close enough for a spring, and a free one
    at [(0.60, 0.60)], out of reach of both. *)
Definition three : state spec_float :=
  add_particle (lit (60 # 100)) (lit (60 # 100)) 0
    (add_particle (lit (30 # 100)) (lit (39 # 100)) 0
       (add_particle (lit (30 # 100)) (lit (30 # 100)) 1 init_state)).

(** Two clicks at one place: two free particles at [(0.3, 0.3)], which
    [add_particle] joins by a spring. *)
Definition twice : state spec_float :=
  add_particle (lit (3 # 10)) (lit (3 # 10)) 0
    (add_particle (lit (3 # 10)) (lit (3 # 10)) 0 init_state).

(** A pinned particle created beyond the right wall, at [(1.5, 0.5)]. *)
Definition outside : state spec_float :=
  add_particle (lit (15 # 10)) (lit (5 # 10)) 1 init_state.

(** The fields filled to capacity by [max_num_particles] calls. *)
Definition full : state spec_float :=
  add_all (replicate max_num_particles (lit (5 # 10), lit (5 # 10), 0%Z)) init_state.

(** A pinned particle at [(0.5, 0.5)], attracted once towards
    [(0.25, 0.5)]. *)
Definition anchored : state spec_float :=
  add_particle (lit (5 # 10)) (lit (5 # 10)) 1 init_state.
Definition pulled : state spec_float :=
  attract (lit (25 # 100)) (lit (5 # 10)) anchored.

End Scenario.

(** ** Loops and stores *)

Lemma for_range_ind {S : Type} (P : nat -> S -> Prop) (n : Z)
    (body : nat -> S -> S) (s : S) :
  P 0%nat s ->
  (forall k t, k < Z.to_nat n -> P k t -> P (Datatypes.S k) (body k t)) ->
  P (Z.to_nat n) (for_range n body s).
Proof.
  unfold for_range. generalize (Z.to_nat n) as m.
  intros m H0 Hstep. induction m as [|m IH].
  - exact H0.
  - rewrite seq_S, foldl_snoc. simpl. apply Hstep; [lia|].
    apply IH. intros k t Hk. apply Hstep. lia.
Qed.

(** A loop whose body keeps a property keeps it. *)
Lemma for_range_keeps {S : Type} (P : S -> Prop) (n : Z)
    (body : nat -> S -> S) (s : S) :
  P s -> (forall k t, k < Z.to_nat n -> P t -> P (body k t)) ->
  P (for_range n body s).
Proof.
  intros H0 Hstep.
  apply (for_range_ind (fun _ t => P t)); auto.
Qed.

Lemma insert_lookup_total_id {A : Type} `{Inhabited A} (l : list A) (i : nat) :
  <[i := l !!! i]> l = l.
Proof.
  apply list_insert_id'. intros Hi. by apply list_lookup_lookup_total_lt.
Qed.

(** Reading a field of a state that is given by its components. *)
Ltac fields :=
  cbn [x v f fixed spring_Y paused num_particles rest_length drag_damping
       dashpot_damping].

(** ** The kernels, particle by particle *)

Section Kernels.

Context {F : Type} `{Scalar F}.

Implicit Types (s t : state F) (pu : vec F * vec F) (i j k d : nat).

#[local] Set Warnings "-clear-no-such-hyp".

Lemma put_xv_put_xv i a b s : put_xv i a (put_xv i b s) = put_xv i a s.
Proof.
  unfold put_xv, set_v, set_x; simpl. by rewrite !list_insert_insert_eq.
Qed.

Lemma put_get_xv i s : put_xv i (get_xv i s) s = s.
Proof.
  destruct s. unfold put_xv, get_xv, set_v, set_x; simpl.
  by rewrite !insert_lookup_total_id.
Qed.

Lemma get_put_xv i pu s :
  i < length (x s) -> i < length (v s) -> get_xv i (put_xv i pu s) = pu.
Proof.
  intros Hx Hv. unfold put_xv, get_xv, set_v, set_x; simpl.
  rewrite !list_lookup_total_insert_eq by done. by destruct pu.
Qed.

Lemma collide_put d i s :
  i < length (x s) -> i < length (v s) ->
  collide d i s = put_xv i (walls1 d (get_xv i s)) s.
Proof.
  intros Hx Hv. unfold collide, walls1.
  change (x s !!! i) with (get_xv i s).1.
  destruct (fltb (vget (get_xv i s).1 d) (lit 0)).
  - change (set_v (set_x s i (vset (get_xv i s).1 d (lit 0))) i
             (vset (v (set_x s i (vset (get_xv i s).1 d (lit 0))) !!! i) d (lit 0)))
      with (put_xv i (vset (get_xv i s).1 d (lit 0), vset (get_xv i s).2 d (lit 0)) s).
    set (pu := (vset (get_xv i s).1 d (lit 0), vset (get_xv i s).2 d (lit 0))).
    set (t := put_xv i pu s).
    assert (Ht : get_xv i t = pu) by (by apply get_put_xv).
    change (x t !!! i) with (get_xv i t).1.
    rewrite Ht.
    destruct (fltb (lit 1) (vget pu.1 d)).
    + change (set_v (set_x t i (vset pu.1 d (lit 1))) i
             (vset (v (set_x t i (vset pu.1 d (lit 1))) !!! i) d (lit 0)))
      with (put_xv i (vset pu.1 d (lit 1), vset (get_xv i t).2 d (lit 0)) t).
      rewrite Ht. unfold t. by rewrite put_xv_put_xv.
    + done.
  - simpl. change (x s !!! i) with (get_xv i s).1.
    destruct (fltb (lit 1) (vget (get_xv i s).1 d)).
    + done.
    + by rewrite put_get_xv.
Qed.

Lemma length_x_put_xv i pu s : length (x (put_xv i pu s)) = length (x s).
Proof. unfold put_xv, set_v, set_x; simpl. apply length_insert. Qed.

Lemma length_v_put_xv i pu s : length (v (put_xv i pu s)) = length (v s).
Proof. unfold put_xv, set_v, set_x; simpl. apply length_insert. Qed.

Lemma integrate_moved i s :
  i < length (x s) -> i < length (v s) ->
  (if (fixed s !!! i =? 0)%Z then
      let s1 := set_v s i (vadd (v s !!! i)
                 (vdivs (smul (lit dt) (f s !!! i)) (lit particle_mass))) in
      let s2 := set_v s1 i (vmuls (v s1 !!! i) (fexp (fmul (lit (- dt)) (drag_damping s1)))) in
      set_x s2 i (vadd (x s2 !!! i) (vmuls (v s2 !!! i) (lit dt)))
    else set_v s i (lit 0, lit 0))
  = put_xv i (moved (fixed s !!! i) (drag_damping s) (f s !!! i) (get_xv i s)) s.
Proof.
  intros Hx Hv. unfold moved, euler, put_xv, get_xv, set_v, set_x.
  destruct s as [X V Fo Fx Y P N R D Da]; simpl in *.
  destruct (Fx !!! i =? 0)%Z; simpl.
  - rewrite !list_lookup_total_insert_eq by (rewrite ?length_insert; done).
    by rewrite !list_insert_insert_eq.
  - by rewrite insert_lookup_total_id.
Qed.

Lemma integrate_put i s :
  i < length (x s) -> i < length (v s) ->
  integrate i s =
    put_xv i (walls (moved (fixed s !!! i) (drag_damping s) (f s !!! i) (get_xv i s))) s.
Proof.
  intros Hx Hv. unfold integrate. cbv zeta.
  rewrite integrate_moved by done.
  set (pu := moved _ _ _ _).
  rewrite (collide_put 0) by (by rewrite ?length_x_put_xv, ?length_v_put_xv).
  rewrite get_put_xv, put_xv_put_xv by done.
  rewrite (collide_put 1) by (by rewrite ?length_x_put_xv, ?length_v_put_xv).
  by rewrite get_put_xv, put_xv_put_xv by done.
Qed.

Lemma spring_force_set i j s :
  i < length (f s) ->
  spring_force i j s = set_f s i (spring_terms s i j (f s !!! i)).
Proof.
  intros Hi. unfold spring_force, spring_terms, hooke, dashpot, direction.
  destruct (negb (feqb (rest s i j) (lit 0))).
  - unfold set_f; simpl.
    rewrite list_lookup_total_insert_eq by done.
    by rewrite list_insert_insert_eq.
  - destruct s; unfold set_f; simpl. by rewrite insert_lookup_total_id.
Qed.

Lemma compute_force_set i s :
  i < length (f s) ->
  compute_force (num_particles s) i s = set_f s i (net_force s i).
Proof.
  intros Hi. unfold compute_force, net_force. cbv zeta. fold (@gravity F _).
  apply (for_range_ind (fun k t =>
    t = set_f s i (foldl (fun acc j => spring_terms s i j acc) gravity (seq 0 k)))).
  - done.
  - intros k t _ ->. rewrite seq_S, foldl_snoc. simpl.
    set (acc := foldl _ _ _).
    rewrite spring_force_set by (unfold set_f; simpl; by rewrite length_insert).
    unfold set_f at 1 3; simpl.
    rewrite list_lookup_total_insert_eq by done.
    by rewrite list_insert_insert_eq.
Qed.

Lemma same_scene_refl s : same_scene s s.
Proof. by repeat split. Qed.

Lemma same_scene_trans s t u : same_scene s t -> same_scene t u -> same_scene s u.
Proof.
  unfold same_scene. intros (?&?&?&?&?&?&?) (?&?&?&?&?&?&?).
  repeat split; congruence.
Qed.

Lemma net_force_ext s t i :
  same_scene s t -> x t = x s -> v t = v s -> net_force t i = net_force s i.
Proof.
  intros (_&HY&_&HN&HR&_&HD) Hx Hv.
  unfold net_force, spring_terms, hooke, dashpot, direction, rest.
  by rewrite HY, HN, HR, HD, Hx, Hv.
Qed.

Lemma force_loop s :
  Z.to_nat (num_particles s) <= length (f s) ->
  let t := for_range (num_particles s) (compute_force (num_particles s)) s in
  same_scene s t /\ x t = x s /\ v t = v s /\ length (f t) = length (f s) /\
  (forall i, i < Z.to_nat (num_particles s) -> f t !!! i = net_force s i) /\
  (forall i, Z.to_nat (num_particles s) <= i -> f t !!! i = f s !!! i).
Proof.
  intros Hn. cbv zeta.
  apply (for_range_ind (fun k t =>
    same_scene s t /\ x t = x s /\ v t = v s /\ length (f t) = length (f s) /\
    (forall i, i < k -> f t !!! i = net_force s i) /\
    (forall i, k <= i -> f t !!! i = f s !!! i))).
  - repeat split. intros i Hi. lia.
  - intros k t Hk (Hsc & Hx & Hv & Hlen & Hlo & Hhi).
    assert (HN : num_particles t = num_particles s) by apply Hsc.
    assert (E : compute_force (num_particles s) k t = set_f t k (net_force s k)).
    { rewrite <- HN. rewrite compute_force_set by lia.
      by rewrite (net_force_ext s t). }
    rewrite E. unfold set_f; simpl. split; [exact Hsc|].
    rewrite length_insert. repeat split; try done.
    + intros i Hi. destruct (decide (i = k)) as [->|Hne].
      * by rewrite list_lookup_total_insert_eq by lia.
      * rewrite list_lookup_total_insert_ne by done. apply Hlo. lia.
    + intros i Hi. rewrite list_lookup_total_insert_ne by lia. apply Hhi. lia.
Qed.

Lemma integrate_loop (n : Z) s :
  Z.to_nat n <= length (x s) -> Z.to_nat n <= length (v s) ->
  let t := for_range n integrate s in
  same_scene s t /\ f t = f s /\
  length (x t) = length (x s) /\ length (v t) = length (v s) /\
  (forall i, i < Z.to_nat n -> get_xv i t =
     walls (moved (fixed s !!! i) (drag_damping s) (f s !!! i) (get_xv i s))) /\
  (forall i, Z.to_nat n <= i -> get_xv i t = get_xv i s).
Proof.
  intros Hnx Hnv. cbv zeta.
  apply (for_range_ind (fun k t =>
    same_scene s t /\ f t = f s /\
    length (x t) = length (x s) /\ length (v t) = length (v s) /\
    (forall i, i < k -> get_xv i t =
       walls (moved (fixed s !!! i) (drag_damping s) (f s !!! i) (get_xv i s))) /\
    (forall i, k <= i -> get_xv i t = get_xv i s))).
  - repeat split. intros i Hi. lia.
  - intros k t Hk (Hsc & Hf & Hlx & Hlv & Hlo & Hhi).
    rewrite integrate_put by lia.
    destruct Hsc as (Hfx & HY & HP & HN & HR & HD & HDa).
    rewrite Hfx, HD, Hf, (Hhi k) by lia.
    split; [by repeat split|].
    split; [done|].
    rewrite length_x_put_xv, length_v_put_xv. do 2 (split; [done|]).
    split.
    + intros i Hi. destruct (decide (i = k)) as [->|Hne].
      * by rewrite get_put_xv by lia.
      * unfold get_xv, put_xv, set_v, set_x; simpl.
        rewrite !list_lookup_total_insert_ne by done. apply Hlo. lia.
    + intros i Hi. unfold get_xv, put_xv, set_v, set_x; simpl.
      rewrite !list_lookup_total_insert_ne by lia. apply Hhi. lia.
Qed.

(** One substep, particle by particle. *)
Lemma substep_spec s :
  Z.to_nat (num_particles s) <= length (x s) ->
  Z.to_nat (num_particles s) <= length (v s) ->
  Z.to_nat (num_particles s) <= length (f s) ->
  same_scene s (substep s) /\
  length (x (substep s)) = length (x s) /\
  length (v (substep s)) = length (v s) /\
  length (f (substep s)) = length (f s) /\
  (forall i, i < Z.to_nat (num_particles s) ->
     f (substep s) !!! i = net_force s i /\
     get_xv i (substep s) = walls (pre_clamp s i)) /\
  (forall i, Z.to_nat (num_particles s) <= i ->
     f (substep s) !!! i = f s !!! i /\ get_xv i (substep s) = get_xv i s).
Proof.
  intros Hx Hv Hf. unfold substep. cbv zeta.
  destruct (force_loop s Hf) as (Hsc & Hx1 & Hv1 & Hl1 & Hlo1 & Hhi1).
  set (t := for_range _ (compute_force _) s) in *.
  destruct (integrate_loop (num_particles s) t) as (Hsc2 & Hf2 & Hlx2 & Hlv2 & Hlo2 & Hhi2);
    [by rewrite Hx1 | by rewrite Hv1 |].
  set (u := for_range _ integrate t) in *.
  split; [by eapply same_scene_trans|].
  rewrite Hlx2, Hlv2, Hf2, Hx1, Hv1. do 3 (split; [done|]).
  split.
  - intros i Hi. split; [by apply Hlo1|].
    rewrite Hlo2 by done. unfold pre_clamp.
    destruct Hsc as (-> & _ & _ & _ & _ & -> & _).
    rewrite Hlo1 by done. unfold get_xv. by rewrite Hx1, Hv1.
  - intros i Hi. split; [by apply Hhi1|].
    rewrite Hhi2 by done. unfold get_xv. by rewrite Hx1, Hv1.
Qed.
(** *** What a substep never touches *)

Lemma spring_force_frame i j s :
  same_scene s (spring_force i j s) /\ same_lengths s (spring_force i j s).
Proof.
  unfold spring_force, same_scene, same_lengths.
  destruct (negb _); simpl; rewrite ?length_insert; by repeat split.
Qed.

Lemma collide_frame d i s :
  same_scene s (collide d i s) /\ same_lengths s (collide d i s).
Proof.
  unfold collide, same_scene, same_lengths.
  destruct (fltb (vget (x s !!! i) d) (lit 0)); simpl;
    destruct (fltb _ _); simpl; rewrite ?length_insert; by repeat split.
Qed.

Lemma frame_trans s t u :
  same_scene s t /\ same_lengths s t ->
  same_scene t u /\ same_lengths t u ->
  same_scene s u /\ same_lengths s u.
Proof.
  intros [Hsc (?&?&?)] [Hsc' (?&?&?)]. split; [by eapply same_scene_trans|].
  unfold same_lengths. repeat split; congruence.
Qed.

Lemma for_range_frame (n : Z) (body : nat -> state F -> state F) s :
  (forall k t, same_scene t (body k t) /\ same_lengths t (body k t)) ->
  same_scene s (for_range n body s) /\ same_lengths s (for_range n body s).
Proof.
  intros Hbody.
  apply (for_range_keeps (fun t => same_scene s t /\ same_lengths s t)).
  - split; [apply same_scene_refl | by repeat split].
  - intros k t _ Ht. eapply frame_trans; [exact Ht | apply Hbody].
Qed.

Lemma compute_force_frame (n : Z) i s :
  same_scene s (compute_force n i s) /\ same_lengths s (compute_force n i s).
Proof.
  unfold compute_force. cbv zeta.
  eapply frame_trans; [|apply for_range_frame; intros; apply spring_force_frame].
  unfold same_scene, same_lengths; simpl. rewrite length_insert. by repeat split.
Qed.

Lemma integrate_frame i s :
  same_scene s (integrate i s) /\ same_lengths s (integrate i s).
Proof.
  unfold integrate. cbv zeta.
  eapply frame_trans; [|apply collide_frame].
  eapply frame_trans; [|apply collide_frame].
  unfold same_scene, same_lengths.
  destruct (fixed s !!! i =? 0)%Z; simpl; rewrite ?length_insert; by repeat split.
Qed.

Lemma substep_frame s :
  same_scene s (substep s) /\ same_lengths s (substep s).
Proof.
  unfold substep. cbv zeta.
  eapply frame_trans; [|apply for_range_frame; intros; apply integrate_frame].
  apply for_range_frame; intros; apply compute_force_frame.
Qed.

(** *** [attract] *)

Lemma attract_spec pos_x pos_y s :
  Z.to_nat (num_particles s) <= length (v s) ->
  let t := attract pos_x pos_y s in
  same_scene s t /\ x t = x s /\ f t = f s /\ length (v t) = length (v s) /\
  (forall i, i < Z.to_nat (num_particles s) ->
     v t !!! i = vadd (v s !!! i) (nudge pos_x pos_y s i)) /\
  (forall i, Z.to_nat (num_particles s) <= i -> v t !!! i = v s !!! i).
Proof.
  intros Hn. cbv zeta. unfold attract.
  apply (for_range_ind (fun k t =>
    same_scene s t /\ x t = x s /\ f t = f s /\ length (v t) = length (v s) /\
    (forall i, i < k -> v t !!! i = vadd (v s !!! i) (nudge pos_x pos_y s i)) /\
    (forall i, k <= i -> v t !!! i = v s !!! i))).
  - split; [apply same_scene_refl|]. repeat split. intros i Hi. lia.
  - intros k t Hk (Hsc & Hx & Hf & Hlen & Hlo & Hhi).
    change (attract_one pos_x pos_y k t)
      with (set_v t k (vadd (v t !!! k) (nudge pos_x pos_y t k))).
    unfold set_v; fields. split; [exact Hsc|].
    rewrite length_insert. repeat split; try done.
    + intros i Hi. destruct (decide (i = k)) as [->|Hne].
      * rewrite list_lookup_total_insert_eq by lia.
        unfold nudge. by rewrite Hx, (Hhi k) by lia.
      * rewrite list_lookup_total_insert_ne by done. apply Hlo. lia.
    + intros i Hi. rewrite list_lookup_total_insert_ne by lia. apply Hhi. lia.
Qed.

Lemma attract_frame pos_x pos_y s :
  same_scene s (attract pos_x pos_y s) /\ same_lengths s (attract pos_x pos_y s).
Proof.
  unfold attract. apply for_range_frame. intros k t.
  unfold attract_one, same_scene, same_lengths; simpl.
  rewrite length_insert. by repeat split.
Qed.

(** *** [clear_scene] *)

Lemma rest_clear_scene s i j : rest (clear_scene s) i j = lit 0.
Proof.
  unfold rest, clear_scene; simpl.
  rewrite !list_lookup_total_alt, list_lookup_fmap.
  destruct (rest_length s !! i) as [row|]; simpl; [|done].
  rewrite list_lookup_fmap. by destruct (row !! j).
Qed.

Lemma clear_scene_idem s : clear_scene (clear_scene s) = clear_scene s.
Proof.
  unfold clear_scene; simpl. f_equal.
  rewrite <- list_fmap_compose. apply list_fmap_ext. intros _ row _. simpl.
  rewrite <- list_fmap_compose. by apply list_fmap_ext.
Qed.


(** *** The spring table *)

Lemma length_set_rest_length s a b c :
  length (rest_length (set_rest_length s a b c)) = length (rest_length s).
Proof. unfold set_rest_length; fields. apply length_alter. Qed.

Lemma square_set_rest_length s a b c :
  square s -> square (set_rest_length s a b c).
Proof.
  unfold square. rewrite length_set_rest_length.
  unfold set_rest_length; fields. intros Hsq.
  apply Forall_alter; [done|]. intros row _ Hrow. by rewrite length_insert.
Qed.

Lemma rest_set_rest_length s a b c i j :
  square s ->
  rest (set_rest_length s a b c) i j =
    if decide (i = a /\ j = b /\
               a < length (rest_length s) /\ b < length (rest_length s))
    then c else rest s i j.
Proof.
  intros Hsq. unfold rest, set_rest_length; fields.
  rewrite list_lookup_total_alter.
  destruct (decide (a = i /\ a < length (rest_length s))) as [[-> Ha]|Hna].
  - rewrite list_lookup_total_insert.
    rewrite (Forall_lookup_total_1 _ _ _ Hsq Ha).
    repeat case_decide; naive_solver.
  - case_decide; naive_solver.
Qed.

Lemma table_ok_ext s t : rest_length t = rest_length s -> table_ok s -> table_ok t.
Proof.
  unfold table_ok, square, symmetric, no_self_loop, rest. by intros ->.
Qed.

Lemma table_ok_set_pair s a b c :
  a <> b -> table_ok s ->
  table_ok (set_rest_length (set_rest_length s a b c) b a c).
Proof.
  intros Hab (Hsq & Hsym & Hdiag).
  assert (Hsq1 := square_set_rest_length s a b c Hsq).
  split; [by apply square_set_rest_length|].
  split.
  - intros i j. rewrite !rest_set_rest_length, !length_set_rest_length by done.
    rewrite (Hsym i j). repeat case_decide; naive_solver.
  - intros i. rewrite !rest_set_rest_length, !length_set_rest_length by done.
    rewrite (Hdiag i). repeat case_decide; naive_solver.
Qed.

Lemma table_ok_connect new i s : new <> i -> table_ok s -> table_ok (connect new i s).
Proof.
  intros Hne Hok. unfold connect. destruct (fltb _ _); [|done].
  by apply table_ok_set_pair.
Qed.

Lemma ix_range (n : Z) k : k < Z.to_nat n -> ix n <> k.
Proof.
  intros Hk. unfold ix. destruct (Z.ltb_spec n 0); lia.
Qed.

Lemma table_ok_add_particle pos_x pos_y fixed_ s :
  table_ok s -> table_ok (add_particle pos_x pos_y fixed_ s).
Proof.
  intros Hok. unfold add_particle. cbv zeta.
  apply (table_ok_ext (for_range (num_particles s) (connect (ix (num_particles s)))
    (set_fixed (set_x (set_v s (ix (num_particles s)) (lit 0, lit 0))
       (ix (num_particles s)) (pos_x, pos_y)) (ix (num_particles s)) fixed_)));
    [done|].
  apply for_range_keeps.
  - by apply (table_ok_ext s).
  - intros k t Hk Ht. apply table_ok_connect; [|done]. by apply ix_range.
Qed.

Lemma table_ok_clear_scene s : square s -> table_ok (clear_scene s).
Proof.
  intros Hsq. split; [|split].
  - unfold square, clear_scene in *; fields. rewrite length_fmap.
    apply Forall_fmap. eapply Forall_impl; [exact Hsq|].
    intros row Hrow. simpl. by rewrite length_fmap.
  - intros i j. by rewrite !rest_clear_scene.
  - intros i. apply rest_clear_scene.
Qed.

Lemma lookup_total_replicate_any {A : Type} `{Inhabited A} (n : nat) (a : A) i :
  replicate n a !!! i = if decide (i < n) then a else inhabitant.
Proof.
  rewrite list_lookup_total_alt. case_decide.
  - by rewrite lookup_replicate_2.
  - by rewrite (proj1 (lookup_replicate_None _ _ _)) by lia.
Qed.

Lemma rest_init_state i j : rest (init_state (F:=F)) i j = lit 0.
Proof.
  unfold rest, init_state; fields.
  rewrite lookup_total_replicate_any. case_decide; [|done].
  rewrite lookup_total_replicate_any. by case_decide.
Qed.

Lemma table_ok_init_state : table_ok (init_state (F:=F)).
Proof.
  split; [|split].
  - unfold square, init_state; fields. rewrite length_replicate.
    apply Forall_replicate, length_replicate.
  - intros i j. by rewrite !rest_init_state.
  - intros i. apply rest_init_state.
Qed.

Lemma reachable_table_ok s : reachable s -> table_ok s.
Proof.
  induction 1 as [|pos_x pos_y fixed_ s _ IH _|s _ IH|s _ IH|pos_x pos_y s _ IH
                  |s _ IH|shift s _ IH|shift s _ IH|shift s _ IH].
  - apply table_ok_init_state.
  - by apply table_ok_add_particle.
  - apply table_ok_clear_scene, IH.
  - eapply table_ok_ext; [|exact IH]. apply substep_frame.
  - eapply table_ok_ext; [|exact IH]. apply attract_frame.
  - by apply (table_ok_ext s).
  - by apply (table_ok_ext s).
  - by apply (table_ok_ext s).
  - by apply (table_ok_ext s).
Qed.

(** *** The particle count *)

Lemma num_particles_add_particle pos_x pos_y fixed_ s :
  num_particles (add_particle pos_x pos_y fixed_ s) = wrap32 (num_particles s + 1).
Proof.
  unfold add_particle. cbv zeta. unfold set_num_particles; fields.
  do 2 f_equal.
  apply (for_range_keeps (fun t => num_particles t = num_particles s)); [done|].
  intros k t _ <-. unfold connect. by destruct (fltb _ _).
Qed.

Lemma wrap32_small (z : Z) : (- 2 ^ 31 <= z < 2 ^ 31)%Z -> wrap32 z = z.
Proof.
  intros Hz. unfold wrap32. rewrite Z.mod_small; lia.
Qed.

Lemma num_particles_add_all (ps : list (F * F * Z)) s :
  (0 <= num_particles s)%Z ->
  (num_particles s + Z.of_nat (length ps) <= Z.of_nat max_num_particles)%Z ->
  num_particles (add_all ps s) = (num_particles s + Z.of_nat (length ps))%Z.
Proof.
  unfold add_all. revert s. induction ps as [|p ps IH]; intros s H0 Hle; simpl in *.
  - lia.
  - assert (Hs : num_particles (add_particle p.1.1 p.1.2 p.2 s)
                 = (num_particles s + 1)%Z).
    { rewrite num_particles_add_particle. apply wrap32_small.
      unfold max_num_particles in Hle. lia. }
    rewrite IH; rewrite Hs; lia.
Qed.


(** *** Shapes *)

Lemma well_shaped_init_state : well_shaped (init_state (F:=F)).
Proof.
  unfold well_shaped, init_state; fields. rewrite !length_replicate.
  repeat split. apply Forall_replicate, length_replicate.
Qed.

Lemma well_shaped_frame s t :
  same_scene s t /\ same_lengths s t -> well_shaped s -> well_shaped t.
Proof.
  intros [(Hfx & _ & _ & _ & HR & _) (Hx & Hv & Hf)].
  unfold well_shaped. rewrite Hfx, HR, Hx, Hv, Hf. done.
Qed.

Lemma well_shaped_substep s : well_shaped s -> well_shaped (substep s).
Proof. apply well_shaped_frame, substep_frame. Qed.

Lemma well_shaped_attract pos_x pos_y s :
  well_shaped s -> well_shaped (attract pos_x pos_y s).
Proof. apply well_shaped_frame, attract_frame. Qed.

Lemma well_shaped_set_rest_length s a b c :
  well_shaped s -> well_shaped (set_rest_length s a b c).
Proof.
  unfold well_shaped, set_rest_length; fields.
  intros (?&?&?&?&?&Hrows). rewrite length_alter. repeat split; try done.
  apply Forall_alter; [done|]. intros row _ Hrow. by rewrite length_insert.
Qed.

Lemma well_shaped_add_particle pos_x pos_y fixed_ s :
  well_shaped s -> well_shaped (add_particle pos_x pos_y fixed_ s).
Proof.
  intros Hs. unfold add_particle. cbv zeta.
  assert (Hloop : forall t, well_shaped t ->
            well_shaped (for_range (num_particles s) (connect (ix (num_particles s))) t)).
  { intros t Ht. apply for_range_keeps; [done|]. intros k u _ Hu.
    unfold connect. destruct (fltb _ _); [|done].
    by do 2 apply well_shaped_set_rest_length. }
  unfold set_num_particles.
  match goal with |- well_shaped (State _ _ _ _ _ _ _ _ _ _) =>
    unfold well_shaped; fields end.
  apply Hloop. unfold well_shaped, set_fixed, set_x, set_v; fields.
  by rewrite !length_insert.
Qed.

Lemma well_shaped_add_all (ps : list (F * F * Z)) s :
  well_shaped s -> well_shaped (add_all ps s).
Proof.
  unfold add_all. revert s. induction ps as [|p ps IH]; intros s Hs; simpl.
  - done.
  - by apply IH, well_shaped_add_particle.
Qed.

Lemma well_shaped_clear_scene s : well_shaped s -> well_shaped (clear_scene s).
Proof.
  unfold well_shaped, clear_scene; fields. intros (?&?&?&?&?&Hrows).
  rewrite length_fmap. repeat split; try done.
  apply Forall_fmap. eapply Forall_impl; [exact Hrows|].
  intros row Hrow. simpl. by rewrite length_fmap.
Qed.

Lemma capacity_lengths s :
  well_shaped s -> in_capacity s ->
  Z.to_nat (num_particles s) <= length (x s) /\
  Z.to_nat (num_particles s) <= length (v s) /\
  Z.to_nat (num_particles s) <= length (f s).
Proof.
  unfold well_shaped, in_capacity. intros (-> & -> & -> & _) Hn. lia.
Qed.

(** Every state the program reaches has the declared shapes and a count
    between 0 and the capacity. *)
Lemma reachable_valid s :
  reachable s -> well_shaped s /\ in_capacity s /\ (0 <= num_particles s)%Z.
Proof.
  unfold in_capacity.
  induction 1 as [|pos_x pos_y fixed_ s _ IH Hroom|s _ IH|s _ IH|pos_x pos_y s _ IH
                  |s _ IH|shift s _ IH|shift s _ IH|shift s _ IH];
    try destruct IH as (Hs & Hcap & H0).
  - split; [apply well_shaped_init_state|]. unfold init_state; fields. lia.
  - split; [by apply well_shaped_add_particle|].
    rewrite num_particles_add_particle, wrap32_small;
      unfold max_num_particles in *; lia.
  - split; [by apply well_shaped_clear_scene|]. unfold clear_scene; fields. lia.
  - destruct (substep_frame s) as [Hsc Hlen].
    split; [by apply well_shaped_substep|].
    destruct Hsc as (_ & _ & _ & -> & _). done.
  - destruct (attract_frame pos_x pos_y s) as [Hsc Hlen].
    split; [by apply well_shaped_attract|].
    destruct Hsc as (_ & _ & _ & -> & _). done.
  - done.
  - done.
  - done.
  - done.
Qed.

(** *** The walls *)

Lemma vget_vset (a : vec F) d c : vget (vset a d c) d = c.
Proof. by destruct d. Qed.

Lemma walls_at_rest (p : vec F) : (walls (p, (lit 0, lit 0))).2 = (lit 0, lit 0).
Proof.
  unfold walls, walls1; simpl.
  destruct (fltb p.1 (lit 0)); simpl; destruct (fltb (lit 1) _); simpl;
    destruct (fltb _ (lit 0)); simpl; destruct (fltb (lit 1) _); done.
Qed.

Lemma walls_within (p u : vec F) : within_walls p -> walls (p, u) = (p, u).
Proof.
  intros Hp. destruct (Hp 0) as [Ha Hb], (Hp 1) as [Hc Hd]. simpl in *.
  unfold walls, walls1; simpl.
  rewrite Ha; simpl. rewrite Hb; simpl. rewrite Hc; simpl. by rewrite Hd.
Qed.

(** One wall rule leaves the other axis alone. *)
Lemma walls1_other d d' pu :
  (d = 0) <-> (d' <> 0) ->
  vget (walls1 d pu).1 d' = vget pu.1 d' /\ vget (walls1 d pu).2 d' = vget pu.2 d'.
Proof.
  intros Hd. unfold walls1.
  destruct (fltb (vget pu.1 d) (lit 0)); simpl; destruct (fltb (lit 1) _); simpl;
    destruct d, d'; simpl; try done; naive_solver.
Qed.

Section Ordered.

(** Two facts about the comparison with the walls. *)
Hypothesis Hone : fltb (lit 1) (lit 0) = false.
Hypothesis Habove :
  forall c : F, fltb (lit 1) c = true -> fltb c (lit 0) = false.

Lemma walls1_same d pu :
  let c := vget pu.1 d in
  (fltb c (lit 0) = true ->
     vget (walls1 d pu).1 d = lit 0 /\ vget (walls1 d pu).2 d = lit 0) /\
  (fltb (lit 1) c = true ->
     vget (walls1 d pu).1 d = lit 1 /\ vget (walls1 d pu).2 d = lit 0) /\
  (fltb c (lit 0) = false -> fltb (lit 1) c = false -> walls1 d pu = pu).
Proof.
  cbv zeta. unfold walls1. split; [|split].
  - intros ->. simpl. rewrite vget_vset, Hone.
    simpl. by rewrite !vget_vset.
  - intros Hc. rewrite (Habove _ Hc), Hc. simpl.
    by rewrite !vget_vset.
  - by intros -> ->.
Qed.

Lemma walls_axis d pu :
  d < 2 ->
  let c := vget pu.1 d in
  (fltb c (lit 0) = true ->
     vget (walls pu).1 d = lit 0 /\ vget (walls pu).2 d = lit 0) /\
  (fltb (lit 1) c = true ->
     vget (walls pu).1 d = lit 1 /\ vget (walls pu).2 d = lit 0) /\
  (fltb c (lit 0) = false -> fltb (lit 1) c = false ->
     vget (walls pu).1 d = c /\ vget (walls pu).2 d = vget pu.2 d).
Proof.
  intros Hd. cbv zeta. unfold walls.
  destruct d as [|[|d]]; [| |lia].
  - destruct (walls1_other 1 0 (walls1 0 pu)) as [-> ->]; [done|].
    destruct (walls1_same 0 pu) as (H0 & H1 & H2).
    split; [done|]. split; [done|]. intros Ha Hb. by rewrite H2.
  - destruct (walls1_other 0 1 pu) as [E1 E2]; [done|].
    destruct (walls1_same 1 (walls1 0 pu)) as (H0 & H1 & H2).
    rewrite E1 in H0, H1, H2.
    split; [done|]. split; [done|]. intros Ha Hb. by rewrite H2.
Qed.

End Ordered.

End Kernels.

(** ** The substep *)

Section Substep.

Context {F : Type} `{Scalar F}.
Implicit Types (s t : state F) (i j k d : nat).

(** C2.  After a substep the force field holds, for every particle [i] in
    [[0, n)], the net force of the specification: gravity [(0, -9.8)] times
    the mass, plus the Hookean and the dashpot term of every [j] in [[0, n)]
    with [rest_length[i, j] != 0], [dir] being the normalized separation.
    The sum is [i]'s own scan of the table: a spring between [i] and [j]
    enters [f[i]] through [i]'s scan and [f[j]] through [j]'s, each time
    with the values read at that endpoint, and no scan writes to the other
    endpoint's force. *)
Theorem substep_net_force s i :
  well_shaped s -> in_capacity s -> i < Z.to_nat (num_particles s) ->
  f (substep s) !!! i = net_force s i /\
  net_force s i =
    foldl (fun acc j =>
             if negb (feqb (rest s i j) (lit 0))
             then vadd (vadd acc (hooke s i j)) (dashpot s i j)
             else acc)
          (vmuls (lit 0, lit (-98 # 10)) (lit particle_mass))
          (seq 0 (Z.to_nat (num_particles s))) /\
  (forall k, k <> i ->
     f (compute_force (num_particles s) i s) !!! k = f s !!! k).
Proof.
  intros Hs Hcap Hi.
  destruct (capacity_lengths s Hs Hcap) as (Hx & Hv & Hf).
  destruct (substep_spec s Hx Hv Hf) as (_ & _ & _ & _ & Hlo & _).
  split; [by destruct (Hlo i Hi)|]. split; [reflexivity|].
  intros k Hk. rewrite compute_force_set by lia.
  unfold set_f; fields. by rewrite list_lookup_total_insert_ne.
Qed.

(** C3.  A particle that is not pinned is integrated in this order: the
    velocity gains [dt * force / mass], is then scaled by
    [exp(-dt * drag_damping)], and the position gains [dt] times that
    updated, drag-scaled velocity; the walls are looked at afterwards. *)
Theorem substep_semi_implicit_euler s i :
  well_shaped s -> in_capacity s -> i < Z.to_nat (num_particles s) ->
  fixed s !!! i = 0%Z ->
  let force := net_force s i in
  let v1 := vadd (v s !!! i) (vdivs (smul (lit dt) force) (lit particle_mass)) in
  let v2 := vmuls v1 (fexp (fmul (lit (- dt)) (drag_damping s))) in
  let x1 := vadd (x s !!! i) (vmuls v2 (lit dt)) in
  (x (substep s) !!! i, v (substep s) !!! i) = walls (x1, v2).
Proof.
  intros Hs Hcap Hi Hfree. cbv zeta.
  destruct (capacity_lengths s Hs Hcap) as (Hx & Hv & Hf).
  destruct (substep_spec s Hx Hv Hf) as (_ & _ & _ & _ & Hlo & _).
  destruct (Hlo i Hi) as [_ Hxv]. unfold get_xv in Hxv. rewrite Hxv.
  unfold pre_clamp, moved. by rewrite Hfree.
Qed.

Lemma pinned_substep s i :
  well_shaped s -> in_capacity s -> i < Z.to_nat (num_particles s) ->
  fixed s !!! i <> 0%Z ->
  v (substep s) !!! i = (lit 0, lit 0) /\
  (within_walls (x s !!! i) -> x (substep s) !!! i = x s !!! i).
Proof.
  intros Hs Hcap Hi Hpin.
  destruct (capacity_lengths s Hs Hcap) as (Hx & Hv & Hf).
  destruct (substep_spec s Hx Hv Hf) as (_ & _ & _ & _ & Hlo & _).
  destruct (Hlo i Hi) as [_ Hxv]. unfold get_xv, pre_clamp, moved in Hxv.
  destruct (Z.eqb_spec (fixed s !!! i) 0) as [|_]; [done|]. cbv iota in Hxv. cbn [fst] in Hxv.
  split.
  - transitivity (walls (x s !!! i, (lit 0, lit 0))).2;
      [by rewrite <- Hxv | apply walls_at_rest].
  - intros Hin.
    pose proof (eq_trans Hxv (walls_within _ (lit 0, lit 0) Hin)) as E.
    by inversion E.
Qed.

Lemma iter_substep_frame k s :
  same_scene s (Nat.iter k substep s) /\ same_lengths s (Nat.iter k substep s).
Proof.
  induction k as [|k IH].
  - split; [apply same_scene_refl | by repeat split].
  - change (Nat.iter (S k) substep s) with (substep (Nat.iter k substep s)).
    eapply frame_trans; [exact IH | apply substep_frame].
Qed.

Lemma pinned_position_iter k s i :
  well_shaped s -> in_capacity s -> i < Z.to_nat (num_particles s) ->
  fixed s !!! i <> 0%Z -> within_walls (x s !!! i) ->
  x (Nat.iter k substep s) !!! i = x s !!! i.
Proof.
  intros Hs Hcap Hi Hpin Hin. induction k as [|k IH]; [done|].
  change (Nat.iter (S k) substep s) with (substep (Nat.iter k substep s)).
  destruct (iter_substep_frame k s) as [Hsc Hlen].
  set (t := Nat.iter k substep s) in *.
  assert (Ht : well_shaped t) by (eapply well_shaped_frame; eauto).
  destruct Hsc as (Hfx & _ & _ & HN & _).
  destruct (pinned_substep t i) as [_ Hpos]; try done.
  - unfold in_capacity. by rewrite HN.
  - by rewrite HN.
  - by rewrite Hfx.
  - rewrite Hpos; [done|]. by rewrite IH.
Qed.

(** C4, amended.  Right after any substep the velocity of a pinned particle
    is [(0, 0)]; over any number of consecutive substeps its position stays
    what it was, provided no coordinate of that position is below 0 or
    above 1 as the collision rule tests it. *)
Theorem pinned_particle_stays s i k :
  well_shaped s -> in_capacity s -> i < Z.to_nat (num_particles s) ->
  fixed s !!! i <> 0%Z ->
  v (substep s) !!! i = (lit 0, lit 0) /\
  (within_walls (x s !!! i) -> x (Nat.iter k substep s) !!! i = x s !!! i).
Proof.
  intros Hs Hcap Hi Hpin. split.
  - by apply pinned_substep.
  - intros Hin. by apply pinned_position_iter.
Qed.

End Substep.

(** ** The scene operations *)

Section Scene.

Context {F : Type} `{Scalar F}.
Implicit Types (s t : state F) (i j k d : nat).

(** C1, which the code does not meet at the capacity.  Below the capacity
    [add_particle] does what the claim says: on a scene of [k] particles,
    [0 <= k < max_num_particles], it leaves the count at [k + 1], and from
    the empty scene [m <= max_num_particles] calls leave it at [m].  On a
    scene of [max_num_particles] particles the claim asks for a refusal
    that leaves the fields alone, and the kernel has none: it tests
    nothing, and the slot [new_particle_id] it goes on to store into is
    the one past the end of [x], of [v], of [fixed] and of the spring
    table in both directions. *)
Theorem add_particle_capacity s (pos_x pos_y : F) (fixed_ : Z) (ps : list (F * F * Z)) :
  well_shaped s ->
  (0 <= num_particles s <= Z.of_nat max_num_particles)%Z ->
  length ps <= max_num_particles ->
  ((num_particles s < Z.of_nat max_num_particles)%Z ->
   num_particles (add_particle pos_x pos_y fixed_ s) = (num_particles s + 1)%Z) /\
  num_particles (add_all ps init_state) = Z.of_nat (length ps) /\
  (num_particles s = Z.of_nat max_num_particles ->
   let new_particle_id := ix (num_particles s) in
   new_particle_id = max_num_particles /\
   x s !! new_particle_id = None /\
   v s !! new_particle_id = None /\
   fixed s !! new_particle_id = None /\
   rest_length s !! new_particle_id = None /\
   (forall i row, rest_length s !! i = Some row -> row !! new_particle_id = None)).
Proof.
  intros (Hx & Hv & _ & Hfx & HR & Hrows) Hk Hps. split; [|split].
  - intros Hroom. rewrite num_particles_add_particle. apply wrap32_small.
    unfold max_num_particles in *. lia.
  - rewrite num_particles_add_all; simpl; lia.
  - intros Hfull. cbv zeta.
    assert (E : ix (num_particles s) = max_num_particles).
    { unfold ix. rewrite Hfull. apply Nat2Z.id. }
    rewrite E. split; [done|].
    split; [apply lookup_ge_None_2; by rewrite Hx|].
    split; [apply lookup_ge_None_2; by rewrite Hv|].
    split; [apply lookup_ge_None_2; by rewrite Hfx|].
    split; [apply lookup_ge_None_2; by rewrite HR|].
    intros i row Hrow. apply lookup_ge_None_2.
    rewrite Forall_lookup in Hrows. by rewrite (Hrows i row Hrow).
Qed.

(** C6.  In every state the program reaches, the spring table is symmetric
    and its diagonal is zero: so it is after every [add_particle] and after
    every clearing of the scene, and no operation stores a rest length for a
    particle with itself. *)
Theorem spring_table_symmetric s :
  reachable s ->
  (forall i j, rest s i j = rest s j i) /\ (forall i, rest s i i = lit 0).
Proof.
  intros Hs. by destruct (reachable_table_ok s Hs) as (_ & Hsym & Hdiag).
Qed.

(** C8.  [attract] changes velocities only: every particle [i] of
    [[0, n)] gains the impulse [-dt * substeps * (x[i] - p) * 100], the
    product taken in the order the source writes it (over the reals,
    [-(dt * substeps * 100) * (x[i] - p)]); velocities beyond the count,
    all positions, the spring table, the count, the pinned flags and the
    force field stay as they are. *)
Theorem attract_nudges_velocity (pos_x pos_y : F) s :
  well_shaped s -> in_capacity s ->
  (forall i, i < Z.to_nat (num_particles s) ->
     v (attract pos_x pos_y s) !!! i =
       vadd (v s !!! i)
            (vmuls (smul (lit (- dt * inject_Z (Z.of_nat substeps)))
                         (vsub (x s !!! i) (pos_x, pos_y)))
                   (lit 100))) /\
  (forall i, Z.to_nat (num_particles s) <= i ->
     v (attract pos_x pos_y s) !!! i = v s !!! i) /\
  x (attract pos_x pos_y s) = x s /\
  f (attract pos_x pos_y s) = f s /\
  fixed (attract pos_x pos_y s) = fixed s /\
  rest_length (attract pos_x pos_y s) = rest_length s /\
  num_particles (attract pos_x pos_y s) = num_particles s.
Proof.
  intros Hs Hcap.
  destruct (capacity_lengths s Hs Hcap) as (_ & Hv & _).
  destruct (attract_spec pos_x pos_y s Hv)
    as ((Hfx & _ & _ & HN & HR & _) & Hx & Hf & _ & Hlo & Hhi).
  repeat split; try done.
Qed.

(** C9.  Clearing the scene twice is clearing it once: the count is 0,
    every entry of the spring table is 0, and positions and velocities are
    not touched, so the dead slots agree as well. *)
Theorem clear_scene_idempotent s :
  clear_scene (clear_scene s) = clear_scene s /\
  num_particles (clear_scene s) = 0%Z /\
  (forall i j, rest (clear_scene s) i j = lit 0) /\
  x (clear_scene s) = x s /\ v (clear_scene s) = v s.
Proof.
  split; [apply clear_scene_idem|]. split; [done|].
  split; [apply rest_clear_scene|]. done.
Qed.

End Scene.

(** ** Attraction and the pinned particles *)

Section Attraction.

Context {F : Type} `{Scalar F}.
Implicit Types (s t : state F) (i j k d : nat).

(** The claim speaks of velocities that are or are not zero, which is a
    matter of the numbers and not of the rounding: it is read over an
    arithmetic in which adding to zero changes nothing, only equal numbers
    have the difference zero, and a product is zero only if a factor is. *)
Hypothesis add_zero : forall a : F, fadd (lit 0) a = a.
Hypothesis sub_zero : forall a b : F, fsub a b = lit 0 -> a = b.
Hypothesis mul_zero : forall a b : F, fmul a b = lit 0 -> a = lit 0 \/ b = lit 0.
Hypothesis step_not_zero : lit (- dt * inject_Z (Z.of_nat substeps)) <> lit 0.
Hypothesis hundred_not_zero : lit 100 <> lit 0.



End Attraction.

(** ** Single precision *)

Module Single.

Import Scenario.

Lemma lit_0 : lit (0 : Q) = S754_zero false.
Proof. reflexivity. Qed.

Lemma lit_1 : lit (1 : Q) = S754_finite false 8388608 (-23).
Proof. reflexivity. Qed.

Lemma mul_nan_r a : F32.mul a S754_nan = S754_nan.
Proof. by destruct a. Qed.

Lemma add_nan_r a : F32.add a S754_nan = S754_nan.
Proof. by destruct a. Qed.

Lemma sub_self a : F32.sub a a = S754_zero false \/ F32.sub a a = S754_nan.
Proof.
  destruct a as [[]|[]| |sg m e]; try (by left); try (by right).
  left. unfold F32.sub, SFsub. by rewrite Z.sub_diag.
Qed.

(** The direction between two particles at one place is not a number. *)
Lemma normalized_coincident (p : vec spec_float) : normalized (vsub p p) = nanv.
Proof.
  destruct p as [a b]. unfold vsub; simpl.
  change fsub with F32.sub.
  by destruct (sub_self a) as [-> | ->], (sub_self b) as [-> | ->].
Qed.

Lemma smul_nanv c : smul c nanv = nanv.
Proof. unfold smul, nanv; simpl. change fmul with F32.mul. by rewrite mul_nan_r. Qed.

Lemma vadd_nanv_r a : vadd a nanv = nanv.
Proof.
  unfold vadd, nanv; simpl. change fadd with F32.add. by rewrite !add_nan_r.
Qed.

Lemma vadd_nanv_l a : vadd nanv a = nanv.
Proof. reflexivity. Qed.

Lemma spring_terms_nanv (s : state spec_float) i j : spring_terms s i j nanv = nanv.
Proof. unfold spring_terms. by destruct (negb _). Qed.

Lemma spring_terms_coincident (s : state spec_float) i j acc :
  feqb (rest s i j) (lit 0) = false -> x s !!! i = x s !!! j ->
  spring_terms s i j acc = nanv.
Proof.
  intros Hr Hx. unfold spring_terms, hooke, dashpot, direction.
  rewrite Hr, Hx, normalized_coincident. simpl negb. cbv iota.
  by rewrite !smul_nanv, !vadd_nanv_r.
Qed.

Lemma foldl_spring_terms_nanv (s : state spec_float) i js :
  foldl (fun acc j => spring_terms s i j acc) nanv js = nanv.
Proof.
  induction js as [|j js IH]; simpl; [done|]. by rewrite spring_terms_nanv.
Qed.

Lemma net_force_coincident (s : state spec_float) i j :
  j < Z.to_nat (num_particles s) ->
  feqb (rest s i j) (lit 0) = false -> x s !!! i = x s !!! j ->
  net_force s i = nanv.
Proof.
  intros Hj Hr Hx. unfold net_force.
  replace (Z.to_nat (num_particles s))
    with (j + S (Z.to_nat (num_particles s) - S j)) by lia.
  rewrite seq_app, foldl_app. simpl.
  rewrite (spring_terms_coincident s i j) by done.
  apply foldl_spring_terms_nanv.
Qed.

Lemma euler_nanv drag pu : euler drag nanv pu = (nanv, nanv).
Proof.
  unfold euler. cbv zeta. rewrite smul_nanv.
  change (vdivs nanv (lit particle_mass)) with nanv.
  rewrite vadd_nanv_r.
  change (vmuls nanv (fexp (fmul (lit (- dt)) drag))) with nanv.
  change (vmuls nanv (lit dt)) with nanv.
  by rewrite vadd_nanv_r.
Qed.

Lemma walls_nanv u : walls (nanv, u) = (nanv, u).
Proof. reflexivity. Qed.

(** *** The order against the walls *)

Lemma one_not_below_zero : fltb (lit 1) (lit (0 : Q)) = false.
Proof. reflexivity. Qed.

Lemma above_one_not_below_zero (c : spec_float) :
  fltb (lit 1) c = true -> fltb c (lit 0) = false.
Proof.
  rewrite lit_0, lit_1. by destruct c as [[]|[]| |[] m e].
Qed.

Lemma compare_one_swap m e :
  SFcompare (S754_finite false m e) (S754_finite false 8388608 (-23))
  = option_map CompOpp
      (SFcompare (S754_finite false 8388608 (-23)) (S754_finite false m e)).
Proof.
  unfold SFcompare, option_map. f_equal.
  rewrite (Z.compare_antisym e (-23)).
  destruct (e ?= -23)%Z; cbn [CompOpp]; try reflexivity.
  rewrite !Pos.compare_cont_spec.
  rewrite (Pos.compare_antisym m 8388608).
  by destruct (m ?= 8388608)%positive.
Qed.

Lemma between_walls (c : spec_float) :
  fltb c (lit 0) = false -> fltb (lit 1) c = false -> F32.is_nan c = false ->
  SFleb (lit 0) c = true /\ SFleb c (lit 1) = true.
Proof.
  rewrite lit_0, lit_1. destruct c as [[]|[]| |[] m e]; try done.
  intros _ H1 _. split; [done|].
  unfold fltb, binary32, SFltb in H1. unfold SFleb.
  rewrite compare_one_swap.
  destruct (SFcompare (S754_finite false 8388608 (-23)) (S754_finite false m e))
    as [[]|] eqn:E; done.
Qed.

(** *** The claims that rest on the arithmetic *)

(** C5, amended.  For every particle and each axis, with [c] the coordinate
    after the integration and before the walls are looked at: if [c < 0] the
    coordinate after the substep is exactly 0 and the velocity on that axis
    exactly 0; if [c > 1] they are exactly 1 and exactly 0; and whenever [c]
    is a number (not NaN) the coordinate after the substep lies in [[0, 1]]. *)
Theorem boundary_clamp (s : state spec_float) (i d : nat) :
  well_shaped s -> in_capacity s -> i < Z.to_nat (num_particles s) -> d < 2 ->
  let c := vget (pre_clamp s i).1 d in
  let c' := vget (x (substep s) !!! i) d in
  let u' := vget (v (substep s) !!! i) d in
  (SFltb c (lit 0) = true -> c' = lit 0 /\ u' = lit 0) /\
  (SFltb (lit 1) c = true -> c' = lit 1 /\ u' = lit 0) /\
  (F32.is_nan c = false -> SFleb (lit 0) c' = true /\ SFleb c' (lit 1) = true).
Proof.
  intros Hs Hcap Hi Hd. cbv zeta.
  destruct (capacity_lengths s Hs Hcap) as (Hx & Hv & Hf).
  destruct (substep_spec s Hx Hv Hf) as (_ & _ & _ & _ & Hlo & _).
  destruct (Hlo i Hi) as [_ Hxv].
  change (x (substep s) !!! i) with (get_xv i (substep s)).1.
  change (v (substep s) !!! i) with (get_xv i (substep s)).2.
  rewrite Hxv.
  destruct (walls_axis one_not_below_zero above_one_not_below_zero d
              (pre_clamp s i) Hd) as (Hlow & Hhigh & Hin).
  change (@fltb spec_float binary32) with SFltb in *.
  split; [exact Hlow|]. split; [exact Hhigh|].
  intros Hnum.
  destruct (SFltb (vget (pre_clamp s i).1 d) (lit 0)) eqn:E0.
  - destruct (Hlow eq_refl) as [-> _]. done.
  - destruct (SFltb (lit 1) (vget (pre_clamp s i).1 d)) eqn:E1.
    + destruct (Hhigh eq_refl) as [-> _]. done.
    + destruct (Hin eq_refl eq_refl) as [-> _]. by apply between_walls.
Qed.

(** C7, amended.  The force computation has no case for two connected
    particles at one place: the direction is [normalized] of the zero
    separation like any other, which in single precision is (NaN, NaN), and
    the fault spreads: the net force on the particle is (NaN, NaN) after the
    substep, and so are the position and the velocity of a particle that is
    not pinned. *)
Theorem coincident_particles_fault (s : state spec_float) (i j : nat) :
  well_shaped s -> in_capacity s ->
  i < Z.to_nat (num_particles s) -> j < Z.to_nat (num_particles s) ->
  feqb (rest s i j) (lit 0) = false -> x s !!! i = x s !!! j ->
  direction s i j = nanv /\
  f (substep s) !!! i = nanv /\
  (fixed s !!! i = 0%Z ->
     x (substep s) !!! i = nanv /\ v (substep s) !!! i = nanv).
Proof.
  intros Hs Hcap Hi Hj Hr Hsame.
  destruct (capacity_lengths s Hs Hcap) as (Hx & Hv & Hf).
  destruct (substep_spec s Hx Hv Hf) as (_ & _ & _ & _ & Hlo & _).
  destruct (Hlo i Hi) as [Hforce Hxv].
  assert (Hnan := net_force_coincident s i j Hj Hr Hsame).
  split; [|split].
  - unfold direction. rewrite Hsame. apply normalized_coincident.
  - by rewrite Hforce.
  - intros Hfree. unfold get_xv, pre_clamp, moved in Hxv.
    rewrite Hfree, Hnan in Hxv. simpl Z.eqb in Hxv. cbv iota in Hxv.
    rewrite euler_nanv, walls_nanv in Hxv. by inversion Hxv.
Qed.

(** *** The claims on concrete scenes *)

Lemma three_ok :
  well_shaped three /\ in_capacity three /\ num_particles three = 3%Z.
Proof.
  split; [|split].
  - unfold three. do 3 apply well_shaped_add_particle. apply well_shaped_init_state.
  - unfold in_capacity. vm_compute. discriminate.
  - clear. vm_compute. reflexivity.
Qed.

Lemma twice_ok :
  well_shaped twice /\ in_capacity twice /\ num_particles twice = 2%Z.
Proof.
  split; [|split].
  - unfold twice. do 2 apply well_shaped_add_particle. apply well_shaped_init_state.
  - unfold in_capacity. vm_compute. discriminate.
  - clear. vm_compute. reflexivity.
Qed.

Lemma full_ok :
  well_shaped full /\ num_particles full = Z.of_nat max_num_particles.
Proof.
  unfold full. split.
  - apply well_shaped_add_all, well_shaped_init_state.
  - rewrite num_particles_add_all.
    + by rewrite length_replicate.
    + done.
    + rewrite length_replicate. simpl. lia.
Qed.

Lemma add_particle_capacity_witness :
  (ix (num_particles full) = max_num_particles /\
   x full !! ix (num_particles full) = None /\
   v full !! ix (num_particles full) = None /\
   fixed full !! ix (num_particles full) = None /\
   rest_length full !! ix (num_particles full) = None /\
   (forall i row, rest_length full !! i = Some row ->
      row !! ix (num_particles full) = None)) /\
  num_particles (add_all [(lit (3 # 10), lit (3 # 10), 1%Z);
                          (lit (3 # 10), lit (39 # 100), 0%Z)] init_state)
    = Z.of_nat 2.
Proof.
  destruct full_ok as [Hs Hn].
  destruct (add_particle_capacity full (lit (5 # 10)) (lit (5 # 10)) 0
              [(lit (3 # 10), lit (3 # 10), 1%Z); (lit (3 # 10), lit (39 # 100), 0%Z)]
              Hs) as (_ & Hcount & Hslot).
  - rewrite Hn. lia.
  - unfold max_num_particles. simpl. lia.
  - split; [exact (Hslot Hn) | exact Hcount].
Defined.

Lemma substep_net_force_witness :
  f (substep three) !!! 1 = net_force three 1 /\
  net_force three 1 =
    foldl (fun acc j =>
             if negb (feqb (rest three 1 j) (lit 0))
             then vadd (vadd acc (hooke three 1 j)) (dashpot three 1 j)
             else acc)
          (vmuls (lit 0, lit (-98 # 10)) (lit particle_mass))
          (seq 0 (Z.to_nat (num_particles three))) /\
  (forall k, k <> 1 ->
     f (compute_force (num_particles three) 1 three) !!! k = f three !!! k).
Proof.
  destruct three_ok as (Hs & Hcap & Hn).
  apply (substep_net_force three 1 Hs Hcap). rewrite Hn. simpl. lia.
Defined.

Lemma substep_semi_implicit_euler_witness :
  let force := net_force three 1 in
  let v1 := vadd (v three !!! 1) (vdivs (smul (lit dt) force) (lit particle_mass)) in
  let v2 := vmuls v1 (fexp (fmul (lit (- dt)) (drag_damping three))) in
  let x1 := vadd (x three !!! 1) (vmuls v2 (lit dt)) in
  (x (substep three) !!! 1, v (substep three) !!! 1) = walls (x1, v2).
Proof.
  destruct three_ok as (Hs & Hcap & Hn).
  apply (substep_semi_implicit_euler three 1 Hs Hcap).
  - rewrite Hn. simpl. lia.
  - clear. vm_compute. reflexivity.
Defined.

Lemma pinned_particle_stays_witness :
  v (substep three) !!! 0 = (lit 0, lit 0) /\
  x (Nat.iter 10 substep three) !!! 0 = x three !!! 0.
Proof.
  destruct three_ok as (Hs & Hcap & Hn).
  destruct (pinned_particle_stays three 0 10 Hs Hcap) as [Hv Hx].
  - rewrite Hn. simpl. lia.
  - clear. vm_compute. discriminate.
  - split; [exact Hv|]. apply Hx. clear. intros [|[|d]]; vm_compute; split; reflexivity.
Defined.

(** C4, refuted as stated: a pinned particle created at [(1.5, 0.5)] is at
    [(1, 0.5)] after one substep. *)
Lemma pinned_outside_is_moved :
  num_particles outside = 1%Z /\ fixed outside !!! 0 = 1%Z /\
  x outside !!! 0 = (lit (15 # 10), lit (5 # 10)) /\
  x (substep outside) !!! 0 = (lit 1, lit (5 # 10)) /\
  x (substep outside) !!! 0 <> x outside !!! 0.
Proof. by vm_compute. Qed.

Lemma boundary_clamp_witness :
  let c := vget (pre_clamp three 2).1 1 in
  let c' := vget (x (substep three) !!! 2) 1 in
  let u' := vget (v (substep three) !!! 2) 1 in
  (SFltb c (lit 0) = true -> c' = lit 0 /\ u' = lit 0) /\
  (SFltb (lit 1) c = true -> c' = lit 1 /\ u' = lit 0) /\
  (F32.is_nan c = false -> SFleb (lit 0) c' = true /\ SFleb c' (lit 1) = true).
Proof.
  destruct three_ok as (Hs & Hcap & Hn).
  apply (boundary_clamp three 2 1 Hs Hcap).
  - rewrite Hn. simpl. lia.
  - lia.
Defined.

(** C5, refuted as stated: after two clicks at one place a substep leaves
    the position of the first particle at (NaN, NaN), which is not within
    [[0, 1]]. *)
Lemma nan_position_outside_the_box :
  num_particles twice = 2%Z /\
  x (substep twice) !!! 0 = nanv /\
  SFleb (lit 0) (vget (x (substep twice) !!! 0) 0) = false /\
  SFleb (vget (x (substep twice) !!! 0) 0) (lit 1) = false.
Proof. by vm_compute. Qed.

Lemma spring_table_symmetric_witness :
  (forall i j, rest three i j = rest three j i) /\
  (forall i, rest three i i = lit 0).
Proof.
  apply (spring_table_symmetric three).
  unfold three.
  repeat (apply reach_add_particle; [|clear; vm_compute; reflexivity]).
  apply reach_init.
Defined.

Lemma coincident_particles_fault_witness :
  direction twice 0 1 = nanv /\
  f (substep twice) !!! 0 = nanv /\
  (fixed twice !!! 0 = 0%Z ->
     x (substep twice) !!! 0 = nanv /\ v (substep twice) !!! 0 = nanv).
Proof.
  destruct twice_ok as (Hs & Hcap & Hn).
  apply (coincident_particles_fault twice 0 1 Hs Hcap).
  - rewrite Hn. simpl. lia.
  - rewrite Hn. simpl. lia.
  - clear. vm_compute. reflexivity.
  - clear. vm_compute. reflexivity.
Defined.

(** C7, refuted as stated: the two particles of [twice] are joined by a
    spring and lie at one place, and the substep leaves force, velocity and
    position of the first at (NaN, NaN). *)
Lemma coincident_pair_not_handled :
  x twice !!! 0 = x twice !!! 1 /\
  feqb (rest twice 0 1) (lit 0) = false /\
  f (substep twice) !!! 0 = nanv /\
  v (substep twice) !!! 0 = nanv /\
  x (substep twice) !!! 0 = nanv.
Proof. by vm_compute. Qed.

Lemma attract_nudges_velocity_witness :
  (forall i, i < Z.to_nat (num_particles three) ->
     v (attract (lit (5 # 10)) (lit (5 # 10)) three) !!! i =
       vadd (v three !!! i)
            (vmuls (smul (lit (- dt * inject_Z (Z.of_nat substeps)))
                         (vsub (x three !!! i) (lit (5 # 10), lit (5 # 10))))
                   (lit 100))) /\
  (forall i, Z.to_nat (num_particles three) <= i ->
     v (attract (lit (5 # 10)) (lit (5 # 10)) three) !!! i = v three !!! i) /\
  x (attract (lit (5 # 10)) (lit (5 # 10)) three) = x three /\
  f (attract (lit (5 # 10)) (lit (5 # 10)) three) = f three /\
  fixed (attract (lit (5 # 10)) (lit (5 # 10)) three) = fixed three /\
  rest_length (attract (lit (5 # 10)) (lit (5 # 10)) three) = rest_length three /\
  num_particles (attract (lit (5 # 10)) (lit (5 # 10)) three) = num_particles three.
Proof.
  destruct three_ok as (Hs & Hcap & _).
  exact (attract_nudges_velocity (lit (5 # 10)) (lit (5 # 10)) three Hs Hcap).
Defined.


(** In single precision, on the scene of the counterexample: the first
    attraction leaves the pinned particle, at rest before, with a velocity
    that is not (0, 0), and a substep takes it away again. *)
Lemma pinned_velocity_after_one_call :
  v anchored !!! 0 = (lit 0, lit 0) /\
  v pulled !!! 0 <> (lit 0, lit 0) /\
  v (substep pulled) !!! 0 = (lit 0, lit 0).
Proof. by vm_compute. Qed.

End Single.

(** ** Exact arithmetic *)

From Stdlib Require QArith.Qcanon.

(** The rationals, on which the four operations are exact.  The root and
    the exponential of a rational are not rational: the instance takes the
    root of numerator times denominator to nine decimals, over the
    denominator, and the exponential series up to the cubic term. *)
Module Exact.

Import Qcanon.
#[local] Close Scope Qc_scope.

Definition sqrt (a : Qc) : Qc :=
  Q2Qc (Z.sqrt (Qnum a * Zpos (Qden a) * 10 ^ 18) # (Qden a * 10 ^ 9)).

Definition exp (a : Qc) : Qc :=
  (Q2Qc 1 + a + a * a / Q2Qc 2 + a * a * a / Q2Qc 6)%Qc.

Definition ltb (a b : Qc) : bool :=
  match (a ?= b)%Qc with Lt => true | _ => false end.

Definition rational : Scalar Qc := {|
  lit := Q2Qc;
  fadd := Qcplus;
  fsub := Qcminus;
  fmul := Qcmult;
  fdiv := Qcdiv;
  fneg := Qcopp;
  fsqrt := sqrt;
  fexp := exp;
  fltb := ltb;
  feqb := Qc_eq_bool;
  py_mul a q := (a * Q2Qc q)%Qc;
  py_div a q := (a / Q2Qc q)%Qc
|}.

#[local] Existing Instance rational.

(** A pinned particle at [(1/2, 1/2)], at rest. *)
Definition anchored : state Qc :=
  add_particle (lit (1 # 2)) (lit (1 # 2)) 1 init_state.







End Exact.

(** ** Further properties of the kernels *)

Section Further.

Context {F : Type} `{Scalar F}.
Implicit Types (s t : state F) (i j k m : nat).

#[local] Set Warnings "-clear-no-such-hyp".

(** *** [add_particle], store by store *)

(** The loop of [add_particle] writes the spring table only. *)
Lemma connect_loop_frame (n : Z) (new : nat) s :
  let t := for_range n (connect new) s in
  x t = x s /\ v t = v s /\ f t = f s /\ fixed t = fixed s /\
  spring_Y t = spring_Y s /\ paused t = paused s /\
  num_particles t = num_particles s /\
  drag_damping t = drag_damping s /\ dashpot_damping t = dashpot_damping s.
Proof.
  cbv zeta.
  apply (for_range_keeps (fun t =>
    x t = x s /\ v t = v s /\ f t = f s /\ fixed t = fixed s /\
    spring_Y t = spring_Y s /\ paused t = paused s /\
    num_particles t = num_particles s /\
    drag_damping t = drag_damping s /\ dashpot_damping t = dashpot_damping s)).
  - by repeat split.
  - intros k t _ Ht. unfold connect. by destruct (fltb _ _).
Qed.

(** X1.  With room for one more, [add_particle] puts the position, the
    velocity (0, 0) and the pinned flag into slot [k], the count before the
    call; every other slot of [x], [v] and [fixed], the force field and the
    parameters are as before. *)
Theorem add_particle_stores (pos_x pos_y : F) (fixed_ : Z) s :
  well_shaped s ->
  (0 <= num_particles s < Z.of_nat max_num_particles)%Z ->
  let k := Z.to_nat (num_particles s) in
  let t := add_particle pos_x pos_y fixed_ s in
  x t !!! k = (pos_x, pos_y) /\ v t !!! k = (lit 0, lit 0) /\
  fixed t !!! k = fixed_ /\
  (forall i, i <> k ->
     x t !!! i = x s !!! i /\ v t !!! i = v s !!! i /\
     fixed t !!! i = fixed s !!! i) /\
  f t = f s /\ spring_Y t = spring_Y s /\ paused t = paused s /\
  drag_damping t = drag_damping s /\ dashpot_damping t = dashpot_damping s.
Proof.
  intros (Hx & Hv & _ & Hfx & _) Hk. cbv zeta.
  unfold add_particle. cbv zeta.
  assert (Hix : ix (num_particles s) = Z.to_nat (num_particles s)).
  { unfold ix. destruct (Z.ltb_spec (num_particles s) 0); [lia|done]. }
  rewrite Hix. set (k := Z.to_nat (num_particles s)).
  assert (Hkm : k < max_num_particles) by (unfold k; lia).
  set (s1 := set_fixed _ _ _).
  destruct (connect_loop_frame (num_particles s1) k s1)
    as (Ex & Ev & Ef & Efx & EY & EP & _ & ED & EDa).
  unfold set_num_particles; fields.
  rewrite Ex, Ev, Ef, Efx, EY, EP, ED, EDa.
  unfold s1, set_fixed, set_x, set_v; fields.
  assert (Hkx : k < length (x s)) by (rewrite Hx; exact Hkm).
  assert (Hkv : k < length (v s)) by (rewrite Hv; exact Hkm).
  assert (Hkf : k < length (fixed s)) by (rewrite Hfx; exact Hkm).
  rewrite !list_lookup_total_insert_eq by assumption.
  repeat split; try done.
  all: by rewrite list_lookup_total_insert_ne.
Qed.

(** The table after the first [m] rounds of the loop of [add_particle]. *)
Lemma connect_loop_table (pos : vec F) (k m : nat) s :
  square s -> k < length (rest_length s) -> m <= k ->
  x s !!! k = pos ->
  let close i := fltb (norm (vsub pos (x s !!! i))) (lit (15 # 100)) in
  let t := for_range (Z.of_nat m) (connect k) s in
  (forall i, i < m -> close i = true ->
     rest t k i = lit (1 # 10) /\ rest t i k = lit (1 # 10)) /\
  (forall i j,
     ~ ((i = k /\ j < m /\ close j = true) \/ (j = k /\ i < m /\ close i = true)) ->
     rest t i j = rest s i j).
Proof.
  intros Hsq Hk Hm Hpos. cbv zeta.
  set (close := fun i => fltb (norm (vsub pos (x s !!! i))) (lit (15 # 100))).
  assert (Hgoal :
    (fun m' t =>
       x t = x s /\ square t /\ length (rest_length t) = length (rest_length s) /\
       (forall i, i < m' -> close i = true ->
          rest t k i = lit (1 # 10) /\ rest t i k = lit (1 # 10)) /\
       (forall i j,
          ~ ((i = k /\ j < m' /\ close j = true) \/
             (j = k /\ i < m' /\ close i = true)) ->
          rest t i j = rest s i j))
      (Z.to_nat (Z.of_nat m)) (for_range (Z.of_nat m) (connect k) s)).
  { apply for_range_ind.
    - split; [done|]. split; [done|]. split; [done|].
      split; [intros i Hi; lia | done].
    - intros m' t Hm' (Ex & Hsqt & Hlen & Hset & Hkeep).
      rewrite Nat2Z.id in Hm'.
      unfold connect. rewrite Ex, Hpos. fold (close m').
      destruct (close m') eqn:Hc.
      + assert (Hsq1 := square_set_rest_length t k m' (lit (1 # 10)) Hsqt).
        split; [done|].
        split; [by apply square_set_rest_length|].
        split; [by rewrite !length_set_rest_length|].
        split.
        * intros i Hi Hci.
          rewrite !rest_set_rest_length, !length_set_rest_length, !Hlen by done.
          destruct (decide (i = m')) as [->|Hne].
          { split; repeat case_decide; try done; exfalso; naive_solver lia. }
          { destruct (Hset i) as [E1 E2]; [lia|done|]. rewrite E1, E2.
            split; by repeat case_decide. }
        * intros i j Hij.
          rewrite !rest_set_rest_length, !length_set_rest_length, !Hlen by done.
          repeat case_decide; try (exfalso; naive_solver lia).
          apply Hkeep. naive_solver lia.
      + split; [done|]. split; [done|]. split; [done|]. split.
        * intros i Hi Hci. apply Hset; [|done].
          destruct (decide (i = m')) as [->|]; [congruence|lia].
        * intros i j Hij. apply Hkeep. naive_solver lia. }
  rewrite Nat2Z.id in Hgoal. by destruct Hgoal as (_ & _ & _ & Hset & Hkeep).
Qed.

(** The spring table after [add_particle]. *)
Lemma add_particle_table (pos_x pos_y : F) (fixed_ : Z) s :
  well_shaped s ->
  (0 <= num_particles s < Z.of_nat max_num_particles)%Z ->
  let k := Z.to_nat (num_particles s) in
  let t := add_particle pos_x pos_y fixed_ s in
  let close i :=
    fltb (norm (vsub (pos_x, pos_y) (x s !!! i))) (lit (15 # 100)) in
  (forall i, i < k -> close i = true ->
     rest t k i = lit (1 # 10) /\ rest t i k = lit (1 # 10)) /\
  (forall i j,
     ~ ((i = k /\ j < k /\ close j = true) \/ (j = k /\ i < k /\ close i = true)) ->
     rest t i j = rest s i j).
Proof.
  intros (Hx & Hv & _ & Hfx & HR & Hrows) Hk. cbv zeta.
  unfold add_particle. cbv zeta.
  assert (Hix : ix (num_particles s) = Z.to_nat (num_particles s)).
  { unfold ix. destruct (Z.ltb_spec (num_particles s) 0); [lia|done]. }
  rewrite Hix. set (k := Z.to_nat (num_particles s)).
  assert (Hkm : k < max_num_particles) by (unfold k; lia).
  set (s1 := set_fixed _ _ _).
  assert (HN : num_particles s1 = Z.of_nat k) by (unfold s1, k, set_fixed, set_x, set_v; fields; lia).
  rewrite HN.
  destruct (connect_loop_table (pos_x, pos_y) k k s1) as [Hset Hkeep].
  - unfold square, s1, set_fixed, set_x, set_v; fields. by rewrite HR.
  - unfold s1, set_fixed, set_x, set_v; fields. rewrite HR. exact Hkm.
  - done.
  - unfold s1, set_fixed, set_x, set_v; fields.
    by rewrite list_lookup_total_insert_eq by lia.
  - assert (Hxs : forall i, i < k -> x s1 !!! i = x s !!! i).
    { intros i Hi. unfold s1, set_fixed, set_x, set_v; fields.
      by rewrite list_lookup_total_insert_ne by lia. }
    split.
    + intros i Hi Hc. apply Hset; [done|]. by rewrite Hxs.
    + intros i j Hij.
      change (rest (set_num_particles ?u ?n) i j) with (rest u i j).
      rewrite Hkeep; [done|].
      intros [(-> & Hj & Hc)|(-> & Hi & Hc)]; apply Hij.
      * left. by rewrite <- Hxs.
      * right. by rewrite <- Hxs.
Qed.

(** X2.  The springs [add_particle] creates: the new particle [k] is joined
    to an earlier particle [i], in both directions and with rest length
    0.1, when [i] lies closer than 0.15 to the new position; every other
    entry of the table is as before. *)
Theorem add_particle_springs (pos_x pos_y : F) (fixed_ : Z) s :
  well_shaped s ->
  (0 <= num_particles s < Z.of_nat max_num_particles)%Z ->
  let k := Z.to_nat (num_particles s) in
  let t := add_particle pos_x pos_y fixed_ s in
  let close i :=
    fltb (norm (vsub (pos_x, pos_y) (x s !!! i))) (lit (15 # 100)) in
  (forall i, i < k -> close i = true ->
     rest t k i = lit (1 # 10) /\ rest t i k = lit (1 # 10)) /\
  (forall i j,
     ~ ((i = k /\ j < k /\ close j = true) \/ (j = k /\ i < k /\ close i = true)) ->
     rest t i j = rest s i j).
Proof. exact (add_particle_table pos_x pos_y fixed_ s). Qed.

(** *** A scene without particles *)

Lemma for_range_none {S : Type} (n : Z) (body : nat -> S -> S) (a : S) :
  (n <= 0)%Z -> for_range n body a = a.
Proof.
  intros Hn. unfold for_range. by replace (Z.to_nat n) with 0 by lia.
Qed.

(** X5.  While the scene holds no particle, [substep] and [attract] change
    nothing; in particular they are no-ops right after the scene is
    cleared. *)
Theorem empty_scene_is_inert (pos_x pos_y : F) s :
  ((num_particles s <= 0)%Z ->
     substep s = s /\ attract pos_x pos_y s = s) /\
  substep (clear_scene s) = clear_scene s /\
  attract pos_x pos_y (clear_scene s) = clear_scene s.
Proof.
  assert (Hgen : forall t, (num_particles t <= 0)%Z ->
            substep t = t /\ attract pos_x pos_y t = t).
  { intros t Ht. unfold substep, attract. cbv zeta.
    by rewrite !for_range_none. }
  split; [apply Hgen|]. by apply Hgen.
Qed.

(** X10.  The first particle after a clearing takes slot 0 and gets no
    spring: the count is 1 and the whole table is still zero. *)
Theorem first_particle_after_clear (pos_x pos_y : F) (fixed_ : Z) s :
  well_shaped s ->
  let t := add_particle pos_x pos_y fixed_ (clear_scene s) in
  num_particles t = 1%Z /\
  x t !!! 0 = (pos_x, pos_y) /\ v t !!! 0 = (lit 0, lit 0) /\
  fixed t !!! 0 = fixed_ /\
  (forall i j, rest t i j = lit 0).
Proof.
  intros (Hx & Hv & _ & Hfx & _). cbv zeta.
  unfold add_particle. cbv zeta.
  change (num_particles (clear_scene s)) with 0%Z.
  rewrite for_range_none by done.
  unfold set_num_particles, set_fixed, set_x, set_v, clear_scene; fields.
  change (ix 0) with 0.
  assert (H0 : 0 < max_num_particles) by (unfold max_num_particles; lia).
  assert (Hkx : 0 < length (x s)) by (rewrite Hx; exact H0).
  assert (Hkv : 0 < length (v s)) by (rewrite Hv; exact H0).
  assert (Hkf : 0 < length (fixed s)) by (rewrite Hfx; exact H0).
  rewrite !list_lookup_total_insert_eq by assumption.
  repeat split; try done.
  intros i j. apply (rest_clear_scene s).
Qed.

(** *** What a substep leaves alone *)

(** X4.  A substep writes [x], [v] and [f] in the slots below the count and
    nothing else: pinned flags, spring table, count, pause flag and the
    three parameters are as before, and so is every slot at or beyond the
    count. *)
Theorem substep_leaves_the_rest s :
  well_shaped s -> in_capacity s ->
  fixed (substep s) = fixed s /\ rest_length (substep s) = rest_length s /\
  num_particles (substep s) = num_particles s /\ paused (substep s) = paused s /\
  spring_Y (substep s) = spring_Y s /\ drag_damping (substep s) = drag_damping s /\
  dashpot_damping (substep s) = dashpot_damping s /\
  (forall i, Z.to_nat (num_particles s) <= i ->
     x (substep s) !!! i = x s !!! i /\ v (substep s) !!! i = v s !!! i /\
     f (substep s) !!! i = f s !!! i).
Proof.
  intros Hs Hcap.
  destruct (capacity_lengths s Hs Hcap) as (Hx & Hv & Hf).
  destruct (substep_spec s Hx Hv Hf)
    as ((Hfx & HY & HP & HN & HR & HD & HDa) & _ & _ & _ & _ & Hhi).
  repeat split; try done.
  all: destruct (Hhi i) as [Ef Exv]; [done|]; try done.
  all: unfold get_xv in Exv; by inversion Exv.
Qed.

(** X6.  A particle no spring is attached to feels gravity alone: its net
    force after the substep is [(0, -9.8)] times the mass, and if it is not
    pinned its new state is one Euler step under that force, followed by
    the walls. *)
Theorem unconnected_particle_falls s i :
  well_shaped s -> in_capacity s -> i < Z.to_nat (num_particles s) ->
  (forall j, j < Z.to_nat (num_particles s) -> feqb (rest s i j) (lit 0) = true) ->
  f (substep s) !!! i = vmuls (lit 0, lit (-98 # 10)) (lit particle_mass) /\
  (fixed s !!! i = 0%Z ->
   (x (substep s) !!! i, v (substep s) !!! i) =
     walls (euler (drag_damping s)
                  (vmuls (lit 0, lit (-98 # 10)) (lit particle_mass))
                  (x s !!! i, v s !!! i))).
Proof.
  intros Hs Hcap Hi Hfree.
  destruct (capacity_lengths s Hs Hcap) as (Hx & Hv & Hf).
  destruct (substep_spec s Hx Hv Hf) as (_ & _ & _ & _ & Hlo & _).
  destruct (Hlo i Hi) as [Hforce Hxv].
  assert (Hnet : net_force s i = gravity).
  { unfold net_force.
    assert (Hfold : forall js acc,
              (forall j, j ∈ js -> j < Z.to_nat (num_particles s)) ->
              foldl (fun a j => spring_terms s i j a) acc js = acc).
    { induction js as [|j js IH]; intros acc Hjs; simpl; [done|].
      unfold spring_terms at 2. rewrite Hfree by (apply Hjs; left). simpl.
      apply IH. intros j' Hj'. apply Hjs. by right. }
    apply Hfold. intros j Hj. apply elem_of_seq in Hj. lia. }
  split.
  - by rewrite Hforce, Hnet.
  - intros Hfix. unfold get_xv, pre_clamp, moved in Hxv.
    rewrite Hfix, Hnet in Hxv. exact Hxv.
Qed.

(** *** Repeated attraction *)

(** X9.  [attract] moves no particle, so attracting [r] times towards one
    point adds the same impulse [r] times to the velocity of every particle
    below the count. *)
Theorem attract_accumulates (pos_x pos_y : F) (r : nat) s :
  well_shaped s -> in_capacity s ->
  x (Nat.iter r (attract pos_x pos_y) s) = x s /\
  (forall i, i < Z.to_nat (num_particles s) ->
     v (Nat.iter r (attract pos_x pos_y) s) !!! i =
       Nat.iter r (fun u => vadd u (nudge pos_x pos_y s i)) (v s !!! i)).
Proof.
  intros Hs Hcap.
  destruct (capacity_lengths s Hs Hcap) as (_ & Hv & _).
  assert (Hall :
    same_scene s (Nat.iter r (attract pos_x pos_y) s) /\
    length (v (Nat.iter r (attract pos_x pos_y) s)) = length (v s) /\
    x (Nat.iter r (attract pos_x pos_y) s) = x s /\
    (forall i, i < Z.to_nat (num_particles s) ->
       v (Nat.iter r (attract pos_x pos_y) s) !!! i =
         Nat.iter r (fun u => vadd u (nudge pos_x pos_y s i)) (v s !!! i))).
  { induction r as [|r IH].
    - split; [apply same_scene_refl|]. by repeat split.
    - destruct IH as (Hsc & Hlen & Ex & Ev).
      change (Nat.iter (S r) (attract pos_x pos_y) s)
        with (attract pos_x pos_y (Nat.iter r (attract pos_x pos_y) s)).
      set (t := Nat.iter r (attract pos_x pos_y) s) in *.
      assert (HN : num_particles t = num_particles s) by apply Hsc.
      destruct (attract_spec pos_x pos_y t) as (Hsc' & Ex' & _ & Hlen' & Hlo & _).
      { rewrite HN, Hlen. exact Hv. }
      split; [by eapply same_scene_trans|].
      split; [congruence|]. split; [congruence|].
      intros i Hi. rewrite Hlo by (by rewrite HN).
      change (Nat.iter (S r) ?g ?a) with (g (Nat.iter r g a)).
      rewrite Ev by done. unfold nudge. by rewrite Ex. }
  by destruct Hall as (_ & _ & Ex & Ev).
Qed.

End Further.

(** ** The loop of [main] *)

From stdpp Require Import strings.

(** The names Taichi's GUI gives the keys [main] asks for. *)
Definition LMB : string := "LMB".
Definition ESCAPE : string := "Escape".
Definition EXIT : string := "WMClose".
Definition SPACE : string := " ".

Section Main.

Context {F : Type} `{Scalar F}.

(** A press event as [main] reads it: the key, the position of the pointer,
    and what [gui.is_pressed] says of the Shift key while it is handled. *)
Record event : Type := Event {
  key : string;
  pos : F * F;
  shift_pressed : bool
}.

(** The body of [for e in gui.get_events(ti.GUI.PRESS)]; [None] is
    [exit()].  The branches stand in the order of the source, the second
    pair for [d] and [x] included. *)
Definition handle_event (e : event) (s : state F) : option (state F) :=
  let s :=
    if String.eqb (key e) LMB
    then add_particle (pos e).1 (pos e).2 (Z.b2z (shift_pressed e)) s
    else s in
  if String.eqb (key e) ESCAPE || String.eqb (key e) EXIT then None
  else if String.eqb (key e) SPACE then Some (toggle_paused s)
  else if String.eqb (key e) "c" then Some (clear_scene s)
  else if String.eqb (key e) "y" then Some (scale_spring_Y (shift_pressed e) s)
  else if String.eqb (key e) "d" then Some (scale_drag_damping (shift_pressed e) s)
  else if String.eqb (key e) "x" then Some (scale_dashpot_damping (shift_pressed e) s)
  else if String.eqb (key e) "d" then Some (scale_drag_damping (shift_pressed e) s)
  else if String.eqb (key e) "x" then Some (scale_dashpot_damping (shift_pressed e) s)
  else Some s.

Fixpoint handle_events (es : list event) (s : state F) : option (state F) :=
  match es with
  | [] => Some s
  | e :: es' =>
      match handle_event e s with
      | None => None
      | Some t => handle_events es' t
      end
  end.

(** One turn of [while True], up to the drawing: the events, the substeps
    unless paused, and the attraction towards the pointer while the right
    button is held ([cursor] is its position then). *)
Definition frame (es : list event) (cursor : option (F * F)) (s : state F)
    : option (state F) :=
  match handle_events es s with
  | None => None
  | Some t =>
      let t := run_substeps t in
      Some (match cursor with
            | Some p => attract p.1 p.2 t
            | None => t
            end)
  end.

(** What the frame draws: a line for every pair [(i, j)] below the count
    with [rest_length[i, j] != 0], from [X[i]] to [X[j]], and a circle for
    every particle, red when pinned. *)
Definition spring_lines (s : state F) : list (nat * nat) :=
  let n := Z.to_nat (num_particles s) in
  flat_map (fun i =>
    flat_map (fun j =>
      if negb (feqb (rest s i j) (lit 0)) then [(i, j)] else [])
      (seq 0 n))
    (seq 0 n).

Definition lines (s : state F) : list (vec F * vec F) :=
  map (fun ij => (x s !!! ij.1, x s !!! ij.2)) (spring_lines s).

Definition circles (s : state F) : list (vec F * bool) :=
  map (fun i => (x s !!! i, negb (fixed s !!! i =? 0)%Z))
      (seq 0 (Z.to_nat (num_particles s))).

Implicit Types (s t : state F) (e : event) (es : list event).

(** *** Events *)

Lemma handle_event_exit e s :
  key e = ESCAPE \/ key e = EXIT -> handle_event e s = None.
Proof.
  intros [He|He]; unfold handle_event; rewrite He; reflexivity.
Qed.

(** X12.  An Escape or a window-close event among the events of a frame
    ends the program in that frame, whatever the other events are. *)
Theorem exit_ends_the_frame es e cursor s :
  e ∈ es -> key e = ESCAPE \/ key e = EXIT -> frame es cursor s = None.
Proof.
  intros Hin He. unfold frame.
  assert (Hnone : handle_events es s = None).
  { revert s. induction es as [|e' es IH]; intros s.
    - by apply elem_of_nil in Hin.
    - simpl. apply elem_of_cons in Hin as [<-|Hin].
      + by rewrite handle_event_exit.
      + destruct (handle_event e' s); [by apply IH | done]. }
  by rewrite Hnone.
Qed.

(** *** What holds in every state of the program *)

Lemma reachable_table_values s :
  reachable s ->
  (forall i j, rest s i j = lit 0 \/ rest s i j = lit (1 # 10)) /\
  (forall i j,
     Z.to_nat (num_particles s) <= i \/ Z.to_nat (num_particles s) <= j ->
     rest s i j = lit 0).
Proof.
  induction 1 as [|pos_x pos_y fixed_ s Hs IH Hroom|s _ IH|s _ IH|pos_x pos_y s _ IH
                  |s _ IH|shift s _ IH|shift s _ IH|shift s _ IH]; try done.
  - split; intros i j; [left|intros _]; apply rest_init_state.
  - destruct IH as [Hval Hdead].
    destruct (reachable_valid s Hs) as (Hw & _ & H0).
    destruct (add_particle_table pos_x pos_y fixed_ s Hw) as [Hset Hkeep]; [lia|].
    assert (HN : num_particles (add_particle pos_x pos_y fixed_ s)
                 = (num_particles s + 1)%Z).
    { rewrite num_particles_add_particle, wrap32_small;
        unfold max_num_particles in *; lia. }
    split.
    + intros i j.
      destruct (decide
        ((i = Z.to_nat (num_particles s) /\ j < Z.to_nat (num_particles s) /\
          fltb (norm (vsub (pos_x, pos_y) (x s !!! j))) (lit (15 # 100)) = true) \/
         (j = Z.to_nat (num_particles s) /\ i < Z.to_nat (num_particles s) /\
          fltb (norm (vsub (pos_x, pos_y) (x s !!! i))) (lit (15 # 100)) = true)))
        as [[(-> & Hj & Hc)|(-> & Hi & Hc)]|Hno].
      * right. by apply Hset.
      * right. by apply Hset.
      * rewrite Hkeep by done. apply Hval.
    + intros i j Hij. rewrite HN in Hij.
      rewrite Hkeep by lia. apply Hdead. lia.
  - split; intros i j; [left|intros _]; apply rest_clear_scene.
  - destruct (substep_frame s) as [(_ & _ & _ & HN & HR & _) _].
    unfold rest in *. by rewrite HN, HR.
  - destruct (attract_frame pos_x pos_y s) as [(_ & _ & _ & HN & HR & _) _].
    unfold rest in *. by rewrite HN, HR.
Qed.

(** X15.  Every spring has the one rest length: in a reachable state an
    entry of the table is 0 (no spring) or 0.1. *)
Theorem rest_lengths_are_uniform s i j :
  reachable s -> rest s i j = lit 0 \/ rest s i j = lit (1 # 10).
Proof. intros Hs. by apply reachable_table_values. Qed.

(** X16.  No spring is attached to a slot at or beyond the count: in a
    reachable state the table is zero outside the particles in use, so a
    cleared scene leaves no spring behind for the particles added next. *)
Theorem no_spring_beyond_the_count s i j :
  reachable s ->
  Z.to_nat (num_particles s) <= i \/ Z.to_nat (num_particles s) <= j ->
  rest s i j = lit 0.
Proof. intros Hs. by apply reachable_table_values. Qed.

(** *** The pause flag *)

Lemma reachable_paused s : reachable s -> paused s = 0%Z \/ paused s = 1%Z.
Proof.
  induction 1 as [|pos_x pos_y fixed_ s _ IH _|s _ IH|s _ IH|pos_x pos_y s _ IH
                  |s _ IH|shift s _ IH|shift s _ IH|shift s _ IH]; try done.
  - by left.
  - unfold add_particle. cbv zeta. unfold set_num_particles; fields.
    by destruct (connect_loop_frame
                   (num_particles
                      (set_fixed (set_x (set_v s (ix (num_particles s)) (lit 0, lit 0))
                         (ix (num_particles s)) (pos_x, pos_y)) (ix (num_particles s)) fixed_))
                   (ix (num_particles s))
                   (set_fixed (set_x (set_v s (ix (num_particles s)) (lit 0, lit 0))
                      (ix (num_particles s)) (pos_x, pos_y)) (ix (num_particles s)) fixed_))
      as (_ & _ & _ & _ & _ & -> & _).
  - destruct (substep_frame s) as [(_ & _ & -> & _) _]. done.
  - destruct (attract_frame pos_x pos_y s) as [(_ & _ & -> & _) _]. done.
  - unfold toggle_paused; fields. destruct (paused s =? 0)%Z; auto.
Qed.

(** X13.  Pressing Space twice gives back the state: the pause flag of a
    reachable state is 0 or 1, and toggling it twice restores it. *)
Theorem toggle_paused_twice s :
  reachable s ->
  (paused s = 0%Z \/ paused s = 1%Z) /\ toggle_paused (toggle_paused s) = s.
Proof.
  intros Hs. destruct (reachable_paused s Hs) as [Hp|Hp]; (split; [auto|]);
    destruct s; unfold toggle_paused; simpl in *; by rewrite Hp.
Qed.

(** *** The drawing *)

Lemma elem_of_spring_lines s i j :
  (i, j) ∈ spring_lines s <->
  i < Z.to_nat (num_particles s) /\ j < Z.to_nat (num_particles s) /\
  feqb (rest s i j) (lit 0) = false.
Proof.
  unfold spring_lines. cbv zeta.
  rewrite list_elem_of_In, in_flat_map. split.
  - intros (i' & Hi' & Hin). apply in_flat_map in Hin as (j' & Hj' & Hin).
    apply in_seq in Hi', Hj'.
    destruct (feqb (rest s i' j') (lit 0)) eqn:E; simpl in Hin; [done|].
    destruct Hin as [[= <- <-]|[]]. repeat split; [lia|lia|done].
  - intros (Hi & Hj & E). exists i. split; [apply in_seq; lia|].
    apply in_flat_map. exists j. split; [apply in_seq; lia|].
    rewrite E. simpl. by left.
Qed.

(** X14.  In a reachable state every spring is drawn twice, once from each
    end, and no line runs from a particle to itself (zero comparing equal
    to itself). *)
Theorem springs_drawn_both_ways s i j :
  reachable s -> feqb (lit (0 : Q)) (lit 0) = true ->
  ((i, j) ∈ spring_lines s <-> (j, i) ∈ spring_lines s) /\
  (i, i) ∉ spring_lines s /\
  length (lines s) = length (spring_lines s).
Proof.
  intros Hs Hzero.
  destruct (reachable_table_ok s Hs) as (_ & Hsym & Hdiag).
  split; [|split].
  - rewrite !elem_of_spring_lines, (Hsym i j). naive_solver.
  - rewrite elem_of_spring_lines, (Hdiag i), Hzero. naive_solver.
  - unfold lines. by rewrite length_map.
Qed.

End Main.

(** ** After the walls *)

Section Settled.

Context {F : Type} `{Scalar F}.

(** Three facts about the comparison of the two wall values. *)
Hypothesis Hzero_zero : fltb (lit 0) (lit 0) = false.
Hypothesis Hone_zero : fltb (lit 1) (lit 0) = false.
Hypothesis Hone_one : fltb (lit 1) (lit 1) = false.

Lemma walls1_settles d (pu : vec F * vec F) :
  fltb (vget (walls1 d pu).1 d) (lit 0) = false /\
  fltb (lit 1) (vget (walls1 d pu).1 d) = false.
Proof.
  unfold walls1.
  destruct (fltb (vget pu.1 d) (lit 0)) eqn:E0; cbn [fst snd].
  - rewrite vget_vset, Hone_zero. cbn [fst snd]. by rewrite vget_vset.
  - destruct (fltb (lit 1) (vget pu.1 d)) eqn:E1; cbn [fst snd].
    + by rewrite vget_vset.
    + done.
Qed.

Lemma walls_settle (pu : vec F * vec F) : within_walls (walls pu).1.
Proof.
  intros d. unfold walls. destruct d as [|d].
  - destruct (walls1_other 1 0 (walls1 0 pu)) as [-> _]; [done|].
    apply walls1_settles.
  - change (vget ?p (S d)) with (vget p 1). apply walls1_settles.
Qed.

End Settled.

(** ** Further properties, in single precision *)

Module Checks.

Import Scenario.

Lemma walls_settle_single (pu : vec spec_float * vec spec_float) :
  within_walls (walls pu).1.
Proof. by apply walls_settle. Qed.

Lemma substep_within_walls (s : state spec_float) (i : nat) :
  well_shaped s -> in_capacity s -> i < Z.to_nat (num_particles s) ->
  within_walls (x (substep s) !!! i).
Proof.
  intros Hs Hcap Hi.
  destruct (capacity_lengths s Hs Hcap) as (Hx & Hv & Hf).
  destruct (substep_spec s Hx Hv Hf) as (_ & _ & _ & _ & Hlo & _).
  destruct (Hlo i Hi) as [_ Hxv].
  change (x (substep s) !!! i) with (get_xv i (substep s)).1.
  rewrite Hxv. apply walls_settle_single.
Qed.

(** X7.  After a substep no wall test would fire again: for every particle
    below the count and each axis, the coordinate is neither below 0 nor
    above 1 as the collision rule compares (a NaN coordinate included, on
    which both comparisons are false). *)
Theorem no_particle_beyond_a_wall (s : state spec_float) (i d : nat) :
  well_shaped s -> in_capacity s -> i < Z.to_nat (num_particles s) ->
  SFltb (vget (x (substep s) !!! i) d) (lit 0) = false /\
  SFltb (lit 1) (vget (x (substep s) !!! i) d) = false.
Proof.
  intros Hs Hcap Hi. exact (substep_within_walls s i Hs Hcap Hi d).
Qed.

(** X8.  A pinned particle moves at most once: whatever its position, the
    first substep puts it between the walls, and after every later substep
    it is where the first one left it, with velocity (0, 0). *)
Theorem pinned_moves_at_most_once (s : state spec_float) (i r : nat) :
  well_shaped s -> in_capacity s -> i < Z.to_nat (num_particles s) ->
  fixed s !!! i <> 0%Z ->
  x (Nat.iter (S r) substep s) !!! i = x (substep s) !!! i /\
  v (Nat.iter (S r) substep s) !!! i = (lit 0, lit 0).
Proof.
  intros Hs Hcap Hi Hpin.
  destruct (substep_frame s) as [Hsc Hlen].
  assert (Hs1 : well_shaped (substep s)) by by apply well_shaped_substep.
  destruct Hsc as (Hfx & _ & _ & HN & _).
  split.
  - rewrite Nat.iter_succ_r. apply pinned_position_iter; try done.
    + unfold in_capacity. by rewrite HN.
    + by rewrite HN.
    + by rewrite Hfx.
    + by apply substep_within_walls.
  - change (Nat.iter (S r) substep s) with (substep (Nat.iter r substep s)).
    destruct (iter_substep_frame r s) as [Hsc' Hlen'].
    destruct Hsc' as (Hfx' & _ & _ & HN' & _).
    apply pinned_substep.
    + eapply well_shaped_frame; [apply iter_substep_frame|done].
    + unfold in_capacity. by rewrite HN'.
    + by rewrite HN'.
    + by rewrite Hfx'.
Qed.

(** *** The properties on concrete scenes *)

Lemma three_reachable : reachable three.
Proof.
  unfold three.
  repeat (apply reach_add_particle; [|clear; vm_compute; reflexivity]).
  apply reach_init.
Qed.

Lemma three_shape :
  well_shaped three /\ in_capacity three /\ num_particles three = 3%Z.
Proof.
  destruct (reachable_valid three three_reachable) as (Hw & Hcap & _).
  split; [done|]. split; [done|]. clear. vm_compute. reflexivity.
Qed.

Lemma outside_shape :
  well_shaped outside /\ in_capacity outside /\ num_particles outside = 1%Z.
Proof.
  assert (Hr : reachable outside).
  { unfold outside. apply reach_add_particle; [apply reach_init|].
    clear. vm_compute. reflexivity. }
  destruct (reachable_valid outside Hr) as (Hw & Hcap & _).
  split; [done|]. split; [done|]. clear. vm_compute. reflexivity.
Qed.

Lemma add_particle_stores_witness :
  let k := Z.to_nat (num_particles three) in
  let t := add_particle (lit (5 # 10)) (lit (5 # 10)) 1 three in
  x t !!! k = (lit (5 # 10), lit (5 # 10)) /\ v t !!! k = (lit 0, lit 0) /\
  fixed t !!! k = 1%Z /\
  (forall i, i <> k ->
     x t !!! i = x three !!! i /\ v t !!! i = v three !!! i /\
     fixed t !!! i = fixed three !!! i) /\
  f t = f three /\ spring_Y t = spring_Y three /\ paused t = paused three /\
  drag_damping t = drag_damping three /\ dashpot_damping t = dashpot_damping three.
Proof.
  destruct three_shape as (Hs & _ & Hn).
  apply (add_particle_stores (lit (5 # 10)) (lit (5 # 10)) 1 three Hs).
  rewrite Hn. unfold max_num_particles. lia.
Defined.

Lemma add_particle_springs_witness :
  let k := Z.to_nat (num_particles three) in
  let t := add_particle (lit (5 # 10)) (lit (5 # 10)) 1 three in
  let close i :=
    fltb (norm (vsub (lit (5 # 10), lit (5 # 10)) (x three !!! i))) (lit (15 # 100)) in
  (forall i, i < k -> close i = true ->
     rest t k i = lit (1 # 10) /\ rest t i k = lit (1 # 10)) /\
  (forall i j,
     ~ ((i = k /\ j < k /\ close j = true) \/ (j = k /\ i < k /\ close i = true)) ->
     rest t i j = rest three i j).
Proof.
  destruct three_shape as (Hs & _ & Hn).
  apply (add_particle_springs (lit (5 # 10)) (lit (5 # 10)) 1 three Hs).
  rewrite Hn. unfold max_num_particles. lia.
Defined.

Lemma first_particle_after_clear_witness :
  let t := add_particle (lit (5 # 10)) (lit (5 # 10)) 0 (clear_scene three) in
  num_particles t = 1%Z /\
  x t !!! 0 = (lit (5 # 10), lit (5 # 10)) /\ v t !!! 0 = (lit 0, lit 0) /\
  fixed t !!! 0 = 0%Z /\
  (forall i j, rest t i j = lit 0).
Proof.
  destruct three_shape as (Hs & _ & _).
  exact (first_particle_after_clear (lit (5 # 10)) (lit (5 # 10)) 0 three Hs).
Defined.

Lemma substep_leaves_the_rest_witness :
  fixed (substep three) = fixed three /\
  rest_length (substep three) = rest_length three /\
  num_particles (substep three) = num_particles three /\
  paused (substep three) = paused three /\
  spring_Y (substep three) = spring_Y three /\
  drag_damping (substep three) = drag_damping three /\
  dashpot_damping (substep three) = dashpot_damping three /\
  (forall i, Z.to_nat (num_particles three) <= i ->
     x (substep three) !!! i = x three !!! i /\
     v (substep three) !!! i = v three !!! i /\
     f (substep three) !!! i = f three !!! i).
Proof.
  destruct three_shape as (Hs & Hcap & _).
  exact (substep_leaves_the_rest three Hs Hcap).
Defined.

Lemma unconnected_particle_falls_witness :
  f (substep three) !!! 2 = vmuls (lit 0, lit (-98 # 10)) (lit particle_mass) /\
  (fixed three !!! 2 = 0%Z ->
   (x (substep three) !!! 2, v (substep three) !!! 2) =
     walls (euler (drag_damping three)
                  (vmuls (lit 0, lit (-98 # 10)) (lit particle_mass))
                  (x three !!! 2, v three !!! 2))).
Proof.
  destruct three_shape as (Hs & Hcap & Hn).
  apply (unconnected_particle_falls three 2 Hs Hcap).
  - rewrite Hn. simpl. lia.
  - rewrite Hn. clear. intros [|[|[|j]]] Hj; [| | |simpl in Hj; lia];
      vm_compute; reflexivity.
Defined.

Lemma attract_accumulates_witness :
  x (Nat.iter 3 (attract (lit (5 # 10)) (lit (5 # 10))) three) = x three /\
  (forall i, i < Z.to_nat (num_particles three) ->
     v (Nat.iter 3 (attract (lit (5 # 10)) (lit (5 # 10))) three) !!! i =
       Nat.iter 3 (fun u => vadd u (nudge (lit (5 # 10)) (lit (5 # 10)) three i))
                (v three !!! i)).
Proof.
  destruct three_shape as (Hs & Hcap & _).
  exact (attract_accumulates (lit (5 # 10)) (lit (5 # 10)) 3 three Hs Hcap).
Defined.

Lemma exit_ends_the_frame_witness :
  frame [Event "c" (lit 0, lit 0) false; Event ESCAPE (lit 0, lit 0) false;
         Event LMB (lit (3 # 10), lit (3 # 10)) false]
        None three = None.
Proof.
  apply (exit_ends_the_frame _ (Event ESCAPE (lit 0, lit 0) false)).
  - apply list_elem_of_further, list_elem_of_here.
  - left. reflexivity.
Defined.

Lemma toggle_paused_twice_witness :
  (paused three = 0%Z \/ paused three = 1%Z) /\
  toggle_paused (toggle_paused three) = three.
Proof. exact (toggle_paused_twice three three_reachable). Defined.

Lemma springs_drawn_both_ways_witness :
  ((1, 0) ∈ spring_lines three <-> (0, 1) ∈ spring_lines three) /\
  (1, 1) ∉ spring_lines three /\
  length (lines three) = length (spring_lines three).
Proof.
  apply (springs_drawn_both_ways three 1 0 three_reachable). reflexivity.
Defined.

Lemma no_particle_beyond_a_wall_witness :
  SFltb (vget (x (substep outside) !!! 0) 0) (lit 0) = false /\
  SFltb (lit 1) (vget (x (substep outside) !!! 0) 0) = false.
Proof.
  destruct outside_shape as (Hs & Hcap & Hn).
  apply (no_particle_beyond_a_wall outside 0 0 Hs Hcap).
  rewrite Hn. simpl. lia.
Defined.

Lemma pinned_moves_at_most_once_witness :
  x (Nat.iter 10 substep outside) !!! 0 = x (substep outside) !!! 0 /\
  v (Nat.iter 10 substep outside) !!! 0 = (lit 0, lit 0).
Proof.
  destruct outside_shape as (Hs & Hcap & Hn).
  apply (pinned_moves_at_most_once outside 0 9 Hs Hcap).
  - rewrite Hn. simpl. lia.
  - clear. vm_compute. discriminate.
Defined.

Lemma rest_lengths_are_uniform_witness :
  rest three 0 1 = lit 0 \/ rest three 0 1 = lit (1 # 10).
Proof. exact (rest_lengths_are_uniform three 0 1 three_reachable). Defined.

Lemma no_spring_beyond_the_count_witness : rest three 0 3 = lit 0.
Proof.
  apply (no_spring_beyond_the_count three 0 3 three_reachable).
  right. destruct three_shape as (_ & _ & ->). simpl. lia.
Defined.

End Checks.
